(** * Fleet_Dynamic_Dispatch: fuel/speed cost model and capacitated dispatch

    A shallow embedding of [src/Fleet_Dynamic_Dispatch.py], console loop and
    script body included, and of the single-road estimate that opens
    [src/FuelOpt.py].  (The rest of [src/FuelOpt.py] is an earlier draft of
    the optimizer, which calls a cost function that is defined nowhere, and
    one linear program over constants.)

    Numbers.  The program computes with Python floats: the grades come from
    [float(input(...))] and the distances are float literals.  A float that
    is a number is written here as an exact rational ([Q]), compared with
    [==].
    The floats have a largest finite value; a result of [*] or [/] beyond it
    is the float infinity (these operators do not raise), and here a rational
    of magnitude [overflow_threshold] or more stands for the infinity of its
    sign.  The operator [**] is different: on a finite float whose power is
    out of range it raises OverflowError ([float_pow]).  The literal
    [float('inf')] that the cost model returns on its early exit is a
    constructor of its own, since it is returned bare and not in a tuple.
    Inside the range the arithmetic is exact: rounding is not modelled.

    Console.  A line typed at a prompt is modelled by what [float] makes of
    it: a finite number, one of nan, inf and -inf, or a ValueError; input is
    a finite list of lines, and [input] on the empty list is EOFError.
    Where nan or inf was typed and the grade that results is not a finite
    number, the run is followed up to the return of that grade and no
    further ([NonFinite]).

    Libraries.  [scipy.interpolate.interp1d] and the PuLP/CBC solver are not
    part of the repository.  [interp1d] is written out from its linear
    evaluation routine.  Of PuLP the model keeps what the program relies on:
    the name a variable gets from its key (two keys with one name make the
    solve fail), the product of a variable and the number 0 (an expression
    without terms), the value of an objective without terms (None), and the
    solver itself as an interface ([Solver]) carrying the contract of a 0/1
    integer-programming solver, with an exhaustive-search instance that
    makes every definition executable.  The solver is followed on programs
    whose coefficients are finite floats. *)

From Stdlib Require Import QArith Qminmax Qabs Lqa Lia Ascii.
From stdpp Require Import gmap strings list fin_maps.

Open Scope Q_scope.

(* ===================================================================== *)
(** ** Exceptions *)
(* ===================================================================== *)

(** The exceptions the modelled statements can raise. *)
Inductive exn : Type :=
  | KeyError
  | TypeError
  | ZeroDivisionError
  | OverflowError
  | PulpSolverError.

Inductive result (A : Type) : Type :=
  | Return (a : A)
  | Raise (e : exn).

Arguments Return {A} a.
Arguments Raise {A} e.

Definition bind {A B : Type} (m : result A) (k : A -> result B) : result B :=
  match m with
  | Return a => k a
  | Raise e => Raise e
  end.

Notation "'let*' x ':=' m 'in' k" := (bind m (fun x => k))
  (at level 10, x pattern, m at level 200, k at level 200, only parsing).

(** A [for] loop whose body may raise: the state is threaded through the
    iterations and the first exception ends the loop. *)
Fixpoint for_each {A S : Type} (l : list A) (body : S -> A -> result S)
    (st : S) : result S :=
  match l with
  | [] => Return st
  | a :: l' => let* st' := body st a in for_each l' body st'
  end.

(** A list comprehension whose element expression may raise. *)
Fixpoint comprehension {A B : Type} (f : A -> result B) (l : list A)
    : result (list B) :=
  match l with
  | [] => Return []
  | a :: l' =>
      let* b := f a in
      let* bs := comprehension f l' in
      Return (b :: bs)
  end.

(** [d[k]] on a dict. *)
Definition getitem {K V : Type} `{Countable K} (d : gmap K V) (k : K)
    : result V :=
  match d !! k with
  | Some v => Return v
  | None => Raise KeyError
  end.

(** [a / b] on floats. *)
Definition truediv (a b : Q) : result Q :=
  if Qeq_bool b 0 then Raise ZeroDivisionError else Return (a / b).

(* ===================================================================== *)
(** ** The range of the floats *)
(* ===================================================================== *)

(** The largest finite float is [2^1024 - 2^971]; an exact result of
    magnitude [2^1024 - 2^970] or more rounds to infinity. *)
Definition overflow_threshold : Q := inject_Z (2 ^ 1024 - 2 ^ 970).

Definition float_finite (x : Q) : Prop := Qabs x < overflow_threshold.

Definition float_finiteb (x : Q) : bool :=
  negb (Qle_bool overflow_threshold (Qabs x)).

(** [x ** n] for a positive whole [n]: OverflowError when [x] is a finite
    float and the power is out of range; an infinite [x] gives infinity. *)
Definition float_pow (x : Q) (n : positive) : result Q :=
  if float_finiteb x && negb (float_finiteb (x ^ Zpos n))
  then Raise OverflowError
  else Return (x ^ Zpos n).

(** The floats on which [x ** 2] raises. *)
Definition square_overflows (x : Q) : Prop :=
  float_finite x /\ ~ float_finite (x ^ 2).

(* ===================================================================== *)
(** ** Part 1: the physics engine *)
(* ===================================================================== *)

Module Physics.

(** Strict comparison [a < b] as a boolean. *)
Definition Qlt_bool (a b : Q) : bool := negb (Qle_bool b a).

(** Python's [max(a, b)]: the first argument unless the second is strictly
    larger. *)
Definition py_max (a b : Q) : Q := if Qlt_bool a b then b else a.

(** [numpy.searchsorted(a, v)] (side ['left']) on an ascending array: the
    number of leading entries strictly below [v]. *)
Fixpoint searchsorted (a : list Q) (v : Q) : nat :=
  match a with
  | [] => 0%nat
  | x :: a' => if Qlt_bool x v then S (searchsorted a' v) else 0%nat
  end.

(** [numpy.clip(i, lo, hi)]. *)
Definition clip (i lo hi : nat) : nat := Nat.min (Nat.max i lo) hi.

(** [interp1d(x, y, kind='linear', fill_value="extrapolate")(x_new)]:
    the bracketing index is clipped into [1 .. len(x)-1], so a point outside
    the table is evaluated on the first or the last segment. *)
Definition interp1d (x y : list Q) (x_new : Q) : Q :=
  let x_new_indices := clip (searchsorted x x_new) 1 (length x - 1) in
  let lo := (x_new_indices - 1)%nat in
  let hi := x_new_indices in
  let x_lo := nth lo x 0 in
  let x_hi := nth hi x 0 in
  let y_lo := nth lo y 0 in
  let y_hi := nth hi y 0 in
  let slope := (y_hi - y_lo) / (x_hi - x_lo) in
  slope * (x_new - x_lo) + y_lo.

Definition grades : list Q := [0; 5; 10; 15].
Definition speeds : list Q := [40; 25; 12; 8].

Definition get_optimal_speed (grade_percent : Q) : Q :=
  let speed_curve := interp1d grades speeds in
  speed_curve grade_percent.

(** What [calculate_fuel_cost] returns: the bare float [float('inf')], or the
    tuple [(total_fuel_liters, opt_speed_kmh)]. *)
Inductive fuel_result : Type :=
  | FloatInf
  | FuelSpeed (total_fuel_liters opt_speed_kmh : Q).

(** The burn-rate formula of line 26, where the square is in range. *)
Definition fuel_burn_rate (grade_used : Q) : Q :=
  180 + (25 * grade_used) + (8 * (grade_used ^ 2)).

Definition calculate_fuel_cost (distance_km grade_percent : Q)
    : result fuel_result :=
  let grade_used := py_max grade_percent 0 in
  let* squared := float_pow grade_used 2 in
  let fuel_burn_rate_lph := 180 + (25 * grade_used) + (8 * squared) in
  let opt_speed_kmh := get_optimal_speed grade_used in
  if Qle_bool opt_speed_kmh 0 then Return FloatInf
  else
    let* travel_time_hours := truediv distance_km opt_speed_kmh in
    let total_fuel_liters := fuel_burn_rate_lph * travel_time_hours in
    Return (FuelSpeed total_fuel_liters opt_speed_kmh).

(** The speed curve as the specification words it: the interpolant through
    the anchors (0,40), (5,25), (10,12), (15,8), continued beyond either end
    with the slope of the nearest segment. *)
Definition segment (x0 y0 x1 y1 g : Q) : Q :=
  y0 + (g - x0) * ((y1 - y0) / (x1 - x0)).

Definition optimalSpeed_spec (g : Q) : Q :=
  if Qle_bool g 5 then segment 0 40 5 25 g
  else if Qle_bool g 10 then segment 5 25 10 12 g
  else segment 10 12 15 8 g.

End Physics.

(* ===================================================================== *)
(** ** The integer program handed to PuLP *)
(* ===================================================================== *)

Module Lp.

(** A route is the key [(t['id'], s['id'])].  The dict [x] built by
    [LpVariable.dicts("Route", routes, cat='Binary')] holds one binary
    variable under each key, so in expressions the variable [x[key]] is
    written as its key. *)
Definition route : Type := string * string.

Definition route_eqb (a b : route) : bool :=
  String.eqb a.1 b.1 && String.eqb a.2 b.2.

(** The name PuLP gives the variable of a key: ["Route_"] followed by the
    text of the tuple, in which every character of ["-+[] ->/"] is replaced
    by an underscore.  (The text of the tuple is written out for ids without
    quotes, backslashes or unprintable characters, which Python shows as
    they are between single quotes.) *)
Definition illegal_chars : list Ascii.ascii :=
  String.list_ascii_of_string "-+[] ->/".

Definition legal (c : Ascii.ascii) : Ascii.ascii :=
  if existsb (Ascii.eqb c) illegal_chars then "_"%char else c.

Fixpoint translate (s : string) : string :=
  match s with
  | EmptyString => EmptyString
  | String c s' => String (legal c) (translate s')
  end.

Definition str (r : route) : string :=
  String.append "('"
    (String.append r.1 (String.append "', '" (String.append r.2 "')"))).

Definition variable_name (r : route) : string :=
  translate (String.append "Route_" (str r)).

(** Two different keys of the list whose variables get the same name. *)
Definition names_collide (routes : list route) : bool :=
  existsb (fun a =>
    existsb (fun b =>
      negb (route_eqb a b)
      && String.eqb (variable_name a) (variable_name b)) routes) routes.

(** A linear expression: coefficient and variable of each term. *)
Definition LpAffineExpression : Type := list (Q * route).

Definition term (c : Q) (r : route) : LpAffineExpression := [(c, r)].

(** [x[r] * c] for a number [c]: PuLP copies the term of the variable,
    scaled by [c], only when [c != 0]; the product with 0 has no term. *)
Definition scaled (r : route) (c : Q) : LpAffineExpression :=
  if Qeq_bool c 0 then [] else term c r.

Definition lpSum (es : list LpAffineExpression) : LpAffineExpression :=
  concat es.

Inductive LpConstraintSense : Type :=
  | LpConstraintLE
  | LpConstraintEQ.

Record LpConstraint : Type := {
  lhs : LpAffineExpression;
  sense : LpConstraintSense;
  rhs : Q
}.

Record LpProblem : Type := {
  objective : LpAffineExpression;
  constraints : list LpConstraint
}.

Inductive LpStatus : Type :=
  | LpStatusNotSolved
  | LpStatusOptimal
  | LpStatusInfeasible
  | LpStatusUnbounded
  | LpStatusUndefined.

Definition LpStatus_eqb (a b : LpStatus) : bool :=
  match a, b with
  | LpStatusNotSolved, LpStatusNotSolved
  | LpStatusOptimal, LpStatusOptimal
  | LpStatusInfeasible, LpStatusInfeasible
  | LpStatusUnbounded, LpStatusUnbounded
  | LpStatusUndefined, LpStatusUndefined => true
  | _, _ => false
  end.

(** Values of the binary variables. *)
Definition var_value (v : route -> bool) (r : route) : Q :=
  if v r then 1 else 0.

Fixpoint value (v : route -> bool) (e : LpAffineExpression) : Q :=
  match e with
  | [] => 0
  | (c, r) :: e' => c * var_value v r + value v e'
  end.

Definition holdsb (v : route -> bool) (c : LpConstraint) : bool :=
  match sense c with
  | LpConstraintLE => Qle_bool (value v (lhs c)) (rhs c)
  | LpConstraintEQ => Qeq_bool (value v (lhs c)) (rhs c)
  end.

Definition feasibleb (v : route -> bool) (p : LpProblem) : bool :=
  forallb (holdsb v) (constraints p).

Definition feasible (v : route -> bool) (p : LpProblem) : Prop :=
  feasibleb v p = true.

(** [pulp.value(prob.objective)] after a solve.  To an objective without
    terms PuLP adds a dummy variable of its own for the solve; that variable
    is never given a value, and the value of the objective is then [None]. *)
Definition objective_value (v : route -> bool) (e : LpAffineExpression)
    : option Q :=
  match e with
  | [] => None
  | _ :: _ => Some (value v e)
  end.

(** [f"{x:.2f}"]: formatting [None] as a float raises TypeError. *)
Definition format_float (x : option Q) : result Q :=
  match x with
  | Some q => Return q
  | None => Raise TypeError
  end.

(** The contract of [prob.solve(...)] on a 0/1 program: a status and the
    values of the variables, where status [Optimal] is reported exactly for
    the feasible programs and then comes with a feasible point of least
    objective value. *)
Class Solver : Type := {
  solve : LpProblem -> LpStatus * (route -> bool);
  solve_sound : forall p v,
    solve p = (LpStatusOptimal, v) ->
    feasible v p /\
    forall w, feasible w p -> value v (objective p) <= value w (objective p);
  solve_complete : forall p w,
    feasible w p -> (solve p).1 = LpStatusOptimal
}.

(** *** A solver by exhaustive search *)

Fixpoint variables_of (e : LpAffineExpression) : list route :=
  match e with
  | [] => []
  | (_, r) :: e' => r :: variables_of e'
  end.

Fixpoint dedupe (l : list route) : list route :=
  match l with
  | [] => []
  | r :: l' => if existsb (route_eqb r) l' then dedupe l' else r :: dedupe l'
  end.

Definition variables (p : LpProblem) : list route :=
  dedupe (variables_of (objective p)
          ++ flat_map (fun c => variables_of (lhs c)) (constraints p)).

(** All ways to set a subset of the variables to 1. *)
Fixpoint subsets (l : list route) : list (list route) :=
  match l with
  | [] => [[]]
  | r :: l' => map (cons r) (subsets l') ++ subsets l'
  end.

Definition chosen (ones : list route) : route -> bool :=
  fun r => existsb (route_eqb r) ones.

(** The cheaper of two candidate points, the earlier one on a tie. *)
Definition cheaper (p : LpProblem) (best : option (list route))
    (ones : list route) : option (list route) :=
  match best with
  | None => Some ones
  | Some b =>
      if Qlt_le_dec (value (chosen ones) (objective p))
                    (value (chosen b) (objective p))
      then Some ones else Some b
  end.

Definition candidates (p : LpProblem) : list (list route) :=
  List.filter (fun ones => feasibleb (chosen ones) p) (subsets (variables p)).

Definition exhaustive_solve (p : LpProblem) : LpStatus * (route -> bool) :=
  match fold_left (cheaper p) (candidates p) None with
  | Some b => (LpStatusOptimal, chosen b)
  | None => (LpStatusInfeasible, fun _ => false)
  end.

(** The running minimum kept by [cheaper]. *)
Definition cost (p : LpProblem) (ones : list route) : Q :=
  value (chosen ones) (objective p).

End Lp.

(* ===================================================================== *)
(** ** Part 2: the dispatch optimizer *)
(* ===================================================================== *)

Module Dispatch.
Import Physics Lp.

(** [{'id': ...}] *)
Record truck : Type := {
  truck_id : string
}.

(** [{'id': ..., 'max_queue': ..., 'distance_from_trucks': {...},
      'grade_percent': ...}] *)
Record shovel : Type := {
  shovel_id : string;
  max_queue : Z;
  distance_from_trucks : gmap string Q;
  grade_percent : Q
}.

(** One line of the printed table. *)
Record table_row : Type := {
  row_truck : string;
  row_destination : string;
  row_speed : Q;
  row_fuel : Q
}.

(** What a completed call has printed: the status line, and then either the
    projected fuel and the table, or the no-solution message. *)
Inductive report : Type :=
  | PrintedOptimal (total_fuel : Q) (table : list table_row)
  | PrintedNoOptimal (status : LpStatus).

(** [fuel_cost, opt_speed = ...]: unpacking needs a tuple. *)
Definition unpack (r : fuel_result) : result (Q * Q) :=
  match r with
  | FuelSpeed fuel_cost opt_speed => Return (fuel_cost, opt_speed)
  | FloatInf => Raise TypeError
  end.

Definition key (t : truck) (s : shovel) : route := (truck_id t, shovel_id s).

(** The pairs visited by [for t in trucks for s in shovels], in that order. *)
Definition pairs (trucks : list truck) (shovels : list shovel)
    : list (truck * shovel) :=
  flat_map (fun t => map (fun s => (t, s)) shovels) trucks.

(** Step 2: the keys of the decision variables. *)
Definition routes (trucks : list truck) (shovels : list shovel)
    : list route :=
  map (fun '(t, s) => key t s) (pairs trucks shovels).

(** Step 3: the cost matrix, as the two dicts [costs] and [speed_log]. *)
Definition cost_matrix (trucks : list truck) (shovels : list shovel)
    : result (gmap route Q * gmap route Q) :=
  for_each trucks (fun st t =>
    for_each shovels (fun '(costs, speed_log) s =>
      let* dist := getitem (distance_from_trucks s) (truck_id t) in
      let grade := grade_percent s in
      let* r := calculate_fuel_cost dist grade in
      let* (fuel_cost, opt_speed) := unpack r in
      Return (<[key t s := fuel_cost]> costs,
              <[key t s := opt_speed]> speed_log)) st)
    (∅, ∅).

(** Step 4: the objective. *)
Definition objective_function (trucks : list truck) (shovels : list shovel)
    (costs : gmap route Q) : result LpAffineExpression :=
  let* terms :=
    comprehension (fun '(t, s) =>
        let* c := getitem costs (key t s) in Return (scaled (key t s) c))
      (pairs trucks shovels) in
  Return (lpSum terms).

(** Step 5, constraint A: one shovel per truck. *)
Definition constraint_A (shovels : list shovel) (t : truck) : LpConstraint :=
  {| lhs := lpSum (map (fun s => term 1 (key t s)) shovels);
     sense := LpConstraintEQ;
     rhs := 1 |}.

(** Step 5, constraint B: queue capacity of a shovel. *)
Definition constraint_B (trucks : list truck) (s : shovel) : LpConstraint :=
  {| lhs := lpSum (map (fun t => term 1 (key t s)) trucks);
     sense := LpConstraintLE;
     rhs := inject_Z (max_queue s) |}.

Definition build_problem (trucks : list truck) (shovels : list shovel)
    (costs : gmap route Q) : result LpProblem :=
  let* obj := objective_function trucks shovels costs in
  Return {| objective := obj;
            constraints := map (constraint_A shovels) trucks
                           ++ map (constraint_B trucks) shovels |}.

(** Step 7: the table, one row for each variable whose value is 1. *)
Definition print_table (trucks : list truck) (shovels : list shovel)
    (x_value : route -> bool) (costs speed_log : gmap route Q)
    : result (list table_row) :=
  for_each trucks (fun rows t =>
    for_each shovels (fun rows s =>
      if Qeq_bool (var_value x_value (key t s)) 1 then
        let* cost := getitem costs (key t s) in
        let* spd := getitem speed_log (key t s) in
        Return (rows ++ [{| row_truck := truck_id t;
                            row_destination := shovel_id s;
                            row_speed := spd;
                            row_fuel := cost |}])
      else Return rows) rows)
    [].

Section WithSolver.
Context `{Solver}.

(** Step 6: [prob.solve(...)].  The solve fails with PulpSolverError when
    two variables of the program bear the same name. *)
Definition prob_solve (x : list route) (prob : LpProblem)
    : result (LpStatus * (route -> bool)) :=
  if names_collide x then Raise PulpSolverError else Return (solve prob).

(** The call, by its numbered steps; the banner and the separator lines it
    prints carry no data and are left out.  The function returns [None]: its
    result is what it has printed. *)
Definition opt_fleet_dispatch (trucks : list truck) (shovels : list shovel)
    : result report :=
  let x := routes trucks shovels in
  let* (costs, speed_log) := cost_matrix trucks shovels in
  let* prob := build_problem trucks shovels costs in
  let* (status, x_value) := prob_solve x prob in
  if LpStatus_eqb status LpStatusOptimal then
    let* total_fuel :=
      format_float (objective_value x_value (objective prob)) in
    let* table := print_table trucks shovels x_value costs speed_log in
    Return (PrintedOptimal total_fuel table)
  else Return (PrintedNoOptimal status).

End WithSolver.

(** *** Vocabulary for stating what the optimizer achieves *)

(** The cost model's figures for the route from truck [t] to shovel [s],
    when the distance is on record and the cost model returns a pair. *)
Definition route_figures (t : truck) (s : shovel) : option (Q * Q) :=
  match distance_from_trucks s !! truck_id t with
  | Some dist =>
      match calculate_fuel_cost dist (grade_percent s) with
      | Return (FuelSpeed fuel_cost opt_speed) => Some (fuel_cost, opt_speed)
      | _ => None
      end
  | None => None
  end.

Definition route_fuel (t : truck) (s : shovel) : Q :=
  match route_figures t s with
  | Some (fuel_cost, _) => fuel_cost
  | None => 0
  end.

Definition route_speed (t : truck) (s : shovel) : Q :=
  match route_figures t s with
  | Some (_, opt_speed) => opt_speed
  | None => 0
  end.

Definition row_of (t : truck) (s : shovel) : table_row :=
  {| row_truck := truck_id t;
     row_destination := shovel_id s;
     row_speed := route_speed t s;
     row_fuel := route_fuel t s |}.

(** Input the optimizer is meant for: shovel identifiers are unique and every
    shovel records a distance for every truck. *)
Definition well_formed (trucks : list truck) (shovels : list shovel) : Prop :=
  NoDup (map shovel_id shovels) /\
  forall t s, In t trucks -> In s shovels ->
    is_Some (distance_from_trucks s !! truck_id t).

(** Every road is flat enough for a positive optimal speed. *)
Definition speeds_positive (shovels : list shovel) : Prop :=
  forall s, In s shovels -> Qmax (grade_percent s) 0 < 25.

(** No clamped grade has a square out of the range of the floats. *)
Definition squares_in_range (shovels : list shovel) : Prop :=
  forall s, In s shovels -> ~ square_overflows (Qmax (grade_percent s) 0).

(** No two decision variables share a name. *)
Definition names_distinct (trucks : list truck) (shovels : list shovel)
    : Prop :=
  names_collide (routes trucks shovels) = false.

(** Every fuel cost is a finite float. *)
Definition costs_finite (trucks : list truck) (shovels : list shovel)
    : Prop :=
  forall t s, In t trucks -> In s shovels -> float_finite (route_fuel t s).

(** Some route has a fuel cost other than zero. *)
Definition some_cost (trucks : list truck) (shovels : list shovel) : Prop :=
  exists t s, In t trucks /\ In s shovels /\ ~ route_fuel t s == 0.

(** The trucks sent to shovel [s] by the choice [f]. *)
Definition queue (trucks : list truck) (f : truck -> shovel) (s : shovel)
    : list truck :=
  List.filter (fun t => String.eqb (shovel_id (f t)) (shovel_id s)) trucks.

(** An assignment gives every truck one shovel of the list (completeness)
    and no shovel more trucks than [max_queue] (capacity). *)
Definition valid_assignment (trucks : list truck) (shovels : list shovel)
    (f : truck -> shovel) : Prop :=
  (forall t, In t trucks -> In (f t) shovels) /\
  (forall s, In s shovels ->
     (Z.of_nat (length (queue trucks f s)) <= max_queue s)%Z).

Definition Qsum (l : list Q) : Q := fold_right Qplus 0 l.

Definition assignment_cost (trucks : list truck) (f : truck -> shovel) : Q :=
  Qsum (map (fun t => route_fuel t (f t)) trucks).

Definition total_capacity (shovels : list shovel) : Z :=
  fold_right Z.add 0%Z (map max_queue shovels).

(** *** The same computation without exceptions

    What the loops compute on input where nothing raises; the lemmas below
    relate these to the definitions above. *)

(** The two dicts after the loops: one insertion per pair, in loop order. *)
Definition record_route (t : truck) (st : gmap route Q * gmap route Q)
    (s : shovel) : gmap route Q * gmap route Q :=
  (<[key t s := route_fuel t s]> st.1, <[key t s := route_speed t s]> st.2).

Definition record_truck (shovels : list shovel)
    (st : gmap route Q * gmap route Q) (t : truck)
    : gmap route Q * gmap route Q :=
  fold_left (record_route t) shovels st.

Definition pair_key (p : truck * shovel) : route := key p.1 p.2.

Definition the_problem (trucks : list truck) (shovels : list shovel)
    : LpProblem :=
  {| objective :=
       lpSum (map (fun p => scaled (pair_key p) (route_fuel p.1 p.2))
                  (pairs trucks shovels));
     constraints := map (constraint_A shovels) trucks
                    ++ map (constraint_B trucks) shovels |}.

Definition selected (x_value : route -> bool) (shovels : list shovel)
    (t : truck) : list shovel :=
  List.filter (fun s => x_value (key t s)) shovels.

Definition the_table (trucks : list truck) (shovels : list shovel)
    (x_value : route -> bool) : list table_row :=
  flat_map (fun t => map (row_of t) (selected x_value shovels t)) trucks.

Definition loaded (x_value : route -> bool) (trucks : list truck) (s : shovel)
    : list truck :=
  List.filter (fun t => x_value (key t s)) trucks.

(** The 0/1 point of an assignment: [x[(t, f t)] = 1] for every truck. *)
Definition point_of (trucks : list truck) (f : truck -> shovel)
    : route -> bool :=
  fun r => existsb (fun t => route_eqb r (key t (f t))) trucks.

(** The assignment read off a 0/1 point: the first shovel selected for the
    truck ([default] where none is). *)
Definition choice (x_value : route -> bool) (shovels : list shovel)
    (default : truck -> shovel) : truck -> shovel :=
  fun t =>
    match selected x_value shovels t with
    | s :: _ => s
    | [] => default t
    end.

(** A shovel whose road is too steep for a positive optimal speed. *)
Definition degenerate (s : shovel) : Prop := 25 <= Qmax (grade_percent s) 0.

(** The assignment that sends every truck to the shovel [s]. *)
Definition all_to (s : shovel) : truck -> shovel := fun _ => s.

(** *** Part 3: the data of the simulation run *)

Definition Truck_1 : truck := {| truck_id := "Truck_1" |}.
Definition Truck_2 : truck := {| truck_id := "Truck_2" |}.
Definition Truck_3 : truck := {| truck_id := "Truck_3" |}.

Definition truck_fleet : list truck := [Truck_1; Truck_2; Truck_3].

(** The two entries of [shovel_data] once a grade has been entered.  The
    queue limit, 2 in the program, is an argument so that the same data can
    be run with other limits. *)
Definition Shovel_A (max_queue_A : Z) (grade_A : Q) : shovel :=
  {| shovel_id := "Shovel_A"; max_queue := max_queue_A;
     distance_from_trucks :=
       {[ "Truck_1" := 2; "Truck_2" := 5; "Truck_3" := 3 ]};
     grade_percent := grade_A |}.

Definition Shovel_B (max_queue_B : Z) (grade_B : Q) : shovel :=
  {| shovel_id := "Shovel_B"; max_queue := max_queue_B;
     distance_from_trucks :=
       {[ "Truck_1" := 8; "Truck_2" := 1; "Truck_3" := 9 ]};
     grade_percent := grade_B |}.

Definition shovel_data (max_queue_A max_queue_B : Z) (grade_A grade_B : Q)
    : list shovel :=
  [Shovel_A max_queue_A grade_A; Shovel_B max_queue_B grade_B].

(** The expected plan of the flat run: Truck_2 to Shovel_B, the others to
    Shovel_A. *)
Definition expected_plan (t : truck) : shovel :=
  if String.eqb (truck_id t) "Truck_2" then Shovel_B 2 0 else Shovel_A 2 0.

End Dispatch.

(* ===================================================================== *)
(** ** Further vocabulary for the optimizer *)
(* ===================================================================== *)

Module DispatchTerms.
Import Physics Lp Dispatch.

(** The shovel has no distance on record for the truck. *)
Definition missing_distance (t : truck) (s : shovel) : Prop :=
  distance_from_trucks s !! truck_id t = None.

(** A pair on which the body of the cost-matrix loop raises. *)
Definition offending (t : truck) (s : shovel) : Prop :=
  missing_distance t s \/ degenerate s.





End DispatchTerms.

(* ===================================================================== *)
(** ** The console: entering the road grades and running the simulation *)
(* ===================================================================== *)

Module Console.
Import Physics Lp Dispatch.

(** The floats that are not finite numbers. *)
Inductive special : Type :=
  | NaN
  | PosInf
  | NegInf.

(** A line typed at a prompt, as [float(input(...))] sees it: text that
    parses to a finite number, text that parses to nan, inf or -inf, or text
    on which [float] raises ValueError. *)
Inductive line : Type :=
  | Number (x : Q)
  | Special (v : special)
  | NotANumber.

(** A float: a finite number, or nan, inf or -inf. *)
Inductive float : Type :=
  | Finite (x : Q)
  | NonNumber (v : special).

(** [float(text)]; [None] stands for ValueError. *)
Definition parse (l : line) : option float :=
  match l with
  | Number x => Some (Finite x)
  | Special v => Some (NonNumber v)
  | NotANumber => None
  end.

(** [run <= 0]: false for nan, as every comparison with nan is. *)
Definition float_le_0 (run : float) : bool :=
  match run with
  | Finite x => Qle_bool x 0
  | NonNumber NegInf => true
  | NonNumber _ => false
  end.

(** [(rise / run) * 100] for a [run] that is not [<= 0].  A finite rise
    over an infinite run is zero; an infinite rise over a finite run keeps
    its sign, the run being positive; nan comes from nan and from inf/inf. *)
Definition float_grade (rise run : float) : result float :=
  match rise, run with
  | Finite rise, Finite run =>
      let* ratio := truediv rise run in Return (Finite (ratio * 100))
  | Finite _, NonNumber NaN => Return (NonNumber NaN)
  | Finite _, NonNumber _ => Return (Finite (0 * 100))
  | NonNumber NaN, _ => Return (NonNumber NaN)
  | NonNumber v, Finite _ => Return (NonNumber v)
  | NonNumber _, NonNumber _ => Return (NonNumber NaN)
  end.

(** What the functions print (the prompts themselves are left out). *)
Inductive message : Type :=
  | ConfigureRoad (location_id : string)
  | DistanceMustBePositive
  | CalculatedGrade (grade : Q)
  | CalculatedNonFinite (grade : special)
  | InvalidInput.

(** How a piece of console code ends: with a value, the lines not yet read
    and what was printed; with [input] finding no line left (EOFError, which
    nothing catches); with another uncaught exception; or with a grade that
    is nan, inf or -inf accepted for a road, from where the run is not
    followed. *)
Inductive console (A : Type) : Type :=
  | Done (a : A) (unread : list line) (printed : list message)
  | EOFError (printed : list message)
  | Failed (e : exn) (printed : list message)
  | NonFinite (grade : special) (unread : list line)
      (printed : list message).

Arguments Done {A} a unread printed.
Arguments EOFError {A} printed.
Arguments Failed {A} e printed.
Arguments NonFinite {A} grade unread printed.

(** The [while True] loop of [get_user_grade_input].  A ValueError from
    either [float] is caught and the loop starts over at the next line; a
    horizontal distance [run <= 0] is refused and the loop starts over. *)
Fixpoint grade_loop (inputs : list line) (printed : list message)
    : console Q :=
  match inputs with
  | [] => EOFError printed
  | first :: inputs' =>
      match parse first with
      | None => grade_loop inputs' (printed ++ [InvalidInput])
      | Some rise =>
          match inputs' with
          | [] => EOFError printed
          | second :: rest =>
              match parse second with
              | None => grade_loop rest (printed ++ [InvalidInput])
              | Some run =>
                  if float_le_0 run then
                    grade_loop rest (printed ++ [DistanceMustBePositive])
                  else
                    match float_grade rise run with
                    | Return (Finite grade) =>
                        Done grade rest (printed ++ [CalculatedGrade grade])
                    | Return (NonNumber grade) =>
                        NonFinite grade rest
                          (printed ++ [CalculatedNonFinite grade])
                    | Raise e => Failed e printed
                    end
              end
          end
      end
  end.

Definition get_user_grade_input (location_id : string) (inputs : list line)
    : console Q :=
  grade_loop inputs [ConfigureRoad location_id].

(** Lines that make up refused attempts only: a rise that is not a number,
    a run that is not a number, or a run that is not positive. *)
Inductive refused : list line -> Prop :=
  | refused_nil : refused []
  | refused_rise rest :
      refused rest -> refused (NotANumber :: rest)
  | refused_run rise rest :
      refused rest -> refused (Number rise :: NotANumber :: rest)
  | refused_distance rise run rest :
      run <= 0 -> refused rest ->
      refused (Number rise :: Number run :: rest)
  | refused_special_run v rest :
      refused rest -> refused (Special v :: NotANumber :: rest)
  | refused_special_distance v run rest :
      run <= 0 -> refused rest ->
      refused (Special v :: Number run :: rest)
  | refused_distance_NegInf rise rest :
      rise <> NotANumber -> refused rest ->
      refused (rise :: Special NegInf :: rest).

(** A message that reports a refused attempt. *)
Definition is_error (m : message) : Prop :=
  m = InvalidInput \/ m = DistanceMustBePositive.


(** A refused attempt, by what was typed. *)
Inductive attempt : Type :=
  | BadRise
  | BadRun (rise : Q)
  | BadDistance (rise run : Q).

Definition attempt_lines (a : attempt) : list line :=
  match a with
  | BadRise => [NotANumber]
  | BadRun rise => [Number rise; NotANumber]
  | BadDistance rise run => [Number rise; Number run]
  end.

Definition attempt_message (a : attempt) : message :=
  match a with
  | BadRise | BadRun _ => InvalidInput
  | BadDistance _ _ => DistanceMustBePositive
  end.

(** The attempt is one that the loop refuses. *)
Definition attempt_refused (a : attempt) : Prop :=
  match a with
  | BadRise | BadRun _ => True
  | BadDistance _ run => run <= 0
  end.

(** The simulation's plan under any two grades: Truck_2 to Shovel_B, the
    others to Shovel_A. *)
Definition plan (grade_A grade_B : Q) (t : truck) : shovel :=
  if String.eqb (truck_id t) "Truck_2" then Shovel_B 2 grade_B
  else Shovel_A 2 grade_A.

(** [shovel['grade_percent'] = grade] *)
Definition set_grade (s : shovel) (grade : Q) : shovel :=
  {| shovel_id := shovel_id s;
     max_queue := max_queue s;
     distance_from_trucks := distance_from_trucks s;
     grade_percent := grade |}.

(** [for shovel in shovel_data: shovel['grade_percent'] =
    get_user_grade_input(shovel['id'])] *)
Fixpoint configure (shovels : list shovel) (inputs : list line)
    (printed : list message) : console (list shovel) :=
  match shovels with
  | [] => Done [] inputs printed
  | shovel :: shovels' =>
      match get_user_grade_input (shovel_id shovel) inputs with
      | Done grade rest out =>
          match configure shovels' rest (printed ++ out) with
          | Done configured rest' out' =>
              Done (set_grade shovel grade :: configured) rest' out'
          | EOFError out' => EOFError out'
          | Failed e out' => Failed e out'
          | NonFinite v rest' out' => NonFinite v rest' out'
          end
      | EOFError out => EOFError (printed ++ out)
      | Failed e out => Failed e (printed ++ out)
      | NonFinite v rest out => NonFinite v rest (printed ++ out)
      end
  end.

Section WithSolver.
Context `{Solver}.

(** The script body: the grades are entered for the two shovels, queue
    limits 2 and 2, and the optimizer is run on the three trucks. *)
Definition main (inputs : list line) : console report :=
  match configure (shovel_data 2 2 0 0) inputs [] with
  | Done shovels rest printed =>
      match opt_fleet_dispatch truck_fleet shovels with
      | Return r => Done r rest printed
      | Raise e => Failed e printed
      end
  | EOFError printed => EOFError printed
  | Failed e printed => Failed e printed
  | NonFinite v rest printed => NonFinite v rest printed
  end.

End WithSolver.

End Console.

(* ===================================================================== *)
(** ** FuelOpt.py: the single-road fuel estimate *)
(* ===================================================================== *)

Module FuelOpt.
Import Physics.

(** The three figures the script prints. *)
Record estimate : Type := {
  Grade : Q;
  Fuel_Burn : Q;
  Total_Fuel : Q
}.

(** Lines 14-23 of [src/FuelOpt.py], from the three numbers read. *)
Definition fuel_estimate (rise run hours : Q) : result estimate :=
  let* ratio := truediv rise run in
  let Grade := ratio * 100 in
  let Grade_used := py_max Grade 0 in
  let* squared := float_pow Grade_used 2 in
  let Fuel_Burn := 180 + (25 * Grade_used) + (8 * squared) in
  let Total_Fuel := Fuel_Burn * hours in
  Return {| Grade := Grade; Fuel_Burn := Fuel_Burn; Total_Fuel := Total_Fuel |}.

End FuelOpt.

(* ===================================================================== *)
(** ** Facts about the physics engine *)
(* ===================================================================== *)

Module PhysicsFacts.
Import Physics.

Lemma Qlt_bool_true a b : Qlt_bool a b = true <-> a < b.
Proof.
  unfold Qlt_bool. rewrite negb_true_iff. split.
  - intros Hb. apply Qnot_le_lt. intros Hle.
    apply Qle_bool_iff in Hle. congruence.
  - intros Hlt. destruct (Qle_bool b a) eqn:E; [|reflexivity].
    apply Qle_bool_iff in E. lra.
Qed.

Lemma Qlt_bool_false a b : Qlt_bool a b = false <-> b <= a.
Proof.
  unfold Qlt_bool. rewrite negb_false_iff. apply Qle_bool_iff.
Qed.

Lemma Qle_bool_false a b : Qle_bool a b = false <-> b < a.
Proof.
  split.
  - intros Hb. apply Qnot_le_lt. intros Hle.
    apply Qle_bool_iff in Hle. congruence.
  - intros Hlt. destruct (Qle_bool a b) eqn:E; [|reflexivity].
    apply Qle_bool_iff in E. lra.
Qed.

Ltac cmp_cases :=
  repeat match goal with
  | |- context [Qlt_bool ?a ?b] =>
      let E := fresh "E" in
      destruct (Qlt_bool a b) eqn:E;
      [apply Qlt_bool_true in E | apply Qlt_bool_false in E]
  | |- context [Qle_bool ?a ?b] =>
      let E := fresh "E" in
      destruct (Qle_bool a b) eqn:E;
      [apply Qle_bool_iff in E | apply Qle_bool_false in E]
  end.

Lemma py_max_clamp g : py_max g 0 == Qmax g 0.
Proof.
  unfold py_max. cmp_cases.
  - symmetry. apply Q.max_r. lra.
  - symmetry. apply Q.max_l. lra.
Qed.

Lemma py_max_nonneg g : 0 <= py_max g 0.
Proof. unfold py_max. cmp_cases; lra. Qed.

Lemma get_optimal_speed_spec g : get_optimal_speed g == optimalSpeed_spec g.
Proof.
  unfold get_optimal_speed, optimalSpeed_spec, interp1d, grades, speeds, segment.
  cbn [searchsorted length].
  cmp_cases; cbn; try lra; try field.
Qed.

(** The three slopes of the speed curve. *)
Lemma slope_0_5 : (25 - 40) / (5 - 0) == -3.
Proof. reflexivity. Qed.

Lemma slope_5_10 : (12 - 25) / (10 - 5) == -(13 # 5).
Proof. reflexivity. Qed.

Lemma slope_10_15 : (8 - 12) / (15 - 10) == -(4 # 5).
Proof. reflexivity. Qed.

Ltac slopes := rewrite ?slope_0_5, ?slope_5_10, ?slope_10_15.

Lemma optimalSpeed_spec_compat g g' :
  g == g' -> optimalSpeed_spec g == optimalSpeed_spec g'.
Proof.
  intros Hg. unfold optimalSpeed_spec, segment.
  cmp_cases; slopes; lra.
Qed.

Lemma get_optimal_speed_compat g g' :
  g == g' -> get_optimal_speed g == get_optimal_speed g'.
Proof.
  intros Hg. rewrite !get_optimal_speed_spec.
  now apply optimalSpeed_spec_compat.
Qed.

(** On non-negative grades the speed is positive exactly below 25%. *)
Lemma get_optimal_speed_pos g :
  0 <= g -> (0 < get_optimal_speed g <-> g < 25).
Proof.
  intros Hg. rewrite get_optimal_speed_spec.
  unfold optimalSpeed_spec, segment. cmp_cases; slopes; split; intros; lra.
Qed.

Lemma fuel_burn_rate_pos g : 0 <= g -> 0 < fuel_burn_rate g.
Proof.
  intros Hg. unfold fuel_burn_rate.
  assert (0 <= g ^ 2) by (simpl; nra). lra.
Qed.

Lemma fuel_burn_rate_compat g g' :
  g == g' -> fuel_burn_rate g == fuel_burn_rate g'.
Proof. intros Hg. unfold fuel_burn_rate. now rewrite Hg. Qed.

(** *** The range of the floats *)

Lemma float_finiteb_true x : float_finiteb x = true <-> float_finite x.
Proof.
  unfold float_finiteb, float_finite. rewrite negb_true_iff.
  apply Qle_bool_false.
Qed.

Lemma float_finiteb_false x : float_finiteb x = false <-> ~ float_finite x.
Proof.
  unfold float_finiteb, float_finite. rewrite negb_false_iff, Qle_bool_iff.
  split; [apply Qle_not_lt | apply Qnot_lt_le].
Qed.

Lemma float_finite_compat x y : x == y -> float_finite x <-> float_finite y.
Proof. intros Hxy. unfold float_finite. now rewrite Hxy. Qed.

Lemma square_overflows_compat x y :
  x == y -> square_overflows x <-> square_overflows y.
Proof.
  intros Hxy. unfold square_overflows.
  rewrite (float_finite_compat x y Hxy).
  assert (Hsq : x ^ 2 == y ^ 2) by now rewrite Hxy.
  now rewrite (float_finite_compat _ _ Hsq).
Qed.

Lemma square_overflows_dec x : {square_overflows x} + {~ square_overflows x}.
Proof.
  unfold square_overflows.
  destruct (float_finiteb x) eqn:Ex.
  - destruct (float_finiteb (x ^ 2)) eqn:Esq.
    + right. intros [_ Hsq]. apply Hsq. now apply float_finiteb_true.
    + left. split; [now apply float_finiteb_true|now apply float_finiteb_false].
  - right. intros [Hx _]. apply float_finiteb_false in Ex. contradiction.
Defined.

Lemma overflow_threshold_above_625 : 625 < overflow_threshold.
Proof. vm_compute. reflexivity. Qed.

Lemma Qsquare x : x ^ 2 == x * x.
Proof. reflexivity. Qed.

(** Below 25 a square is far inside the range. *)
Lemma small_square_in_range x : 0 <= x -> x < 25 -> ~ square_overflows x.
Proof.
  intros H0 H25 [_ Hsq]. apply Hsq. unfold float_finite.
  pose proof overflow_threshold_above_625 as Hthr.
  rewrite Qsquare, Qabs_pos by nra. nra.
Qed.

Lemma square_overflows_steep x : 0 <= x -> square_overflows x -> 25 <= x.
Proof.
  intros H0 Hov. apply Qnot_lt_le. intros Hlt.
  now apply (small_square_in_range x H0 Hlt).
Qed.

Lemma float_pow_raises x :
  square_overflows x -> float_pow x 2 = Raise OverflowError.
Proof.
  intros [Hx Hsq]. unfold float_pow.
  apply float_finiteb_true in Hx. apply float_finiteb_false in Hsq.
  now rewrite Hx, Hsq.
Qed.

Lemma float_pow_returns x :
  ~ square_overflows x -> float_pow x 2 = Return (x ^ 2).
Proof.
  intros Hno. unfold float_pow.
  destruct (float_finiteb x) eqn:Ex; [|reflexivity].
  destruct (float_finiteb (x ^ 2)) eqn:Esq; [reflexivity|].
  exfalso. apply Hno.
  split; [now apply float_finiteb_true | now apply float_finiteb_false].
Qed.

Lemma clamped_square_overflows g :
  square_overflows (py_max g 0) <-> square_overflows (Qmax g 0).
Proof. apply square_overflows_compat, py_max_clamp. Qed.

(** The three exits of [calculate_fuel_cost]. *)
Lemma calculate_fuel_cost_overflow d g :
  square_overflows (py_max g 0) ->
  calculate_fuel_cost d g = Raise OverflowError.
Proof.
  intros Hov. unfold calculate_fuel_cost.
  now rewrite (float_pow_raises _ Hov).
Qed.

Lemma calculate_fuel_cost_inf d g :
  ~ square_overflows (py_max g 0) ->
  get_optimal_speed (py_max g 0) <= 0 ->
  calculate_fuel_cost d g = Return FloatInf.
Proof.
  intros Hno Hs. unfold calculate_fuel_cost.
  rewrite (float_pow_returns _ Hno). cbn [bind].
  apply Qle_bool_iff in Hs. now rewrite Hs.
Qed.

Lemma calculate_fuel_cost_pair d g :
  0 < get_optimal_speed (py_max g 0) ->
  calculate_fuel_cost d g =
    Return (FuelSpeed
              (fuel_burn_rate (py_max g 0)
               * (d / get_optimal_speed (py_max g 0)))
              (get_optimal_speed (py_max g 0))).
Proof.
  intros Hs. unfold calculate_fuel_cost, truediv.
  assert (Hno : ~ square_overflows (py_max g 0)).
  { apply small_square_in_range; [apply py_max_nonneg|].
    now apply (get_optimal_speed_pos _ (py_max_nonneg g)). }
  rewrite (float_pow_returns _ Hno). cbn [bind].
  destruct (Qle_bool _ 0) eqn:E.
  - apply Qle_bool_iff in E. lra.
  - destruct (Qeq_bool _ 0) eqn:E0; [|reflexivity].
    apply Qeq_bool_iff in E0. lra.
Qed.

Lemma clamped_speed_pos g :
  0 < get_optimal_speed (py_max g 0) <-> Qmax g 0 < 25.
Proof.
  rewrite (get_optimal_speed_pos _ (py_max_nonneg g)).
  now rewrite py_max_clamp.
Qed.

Lemma clamped_speed_nonpos g :
  get_optimal_speed (py_max g 0) <= 0 <-> 25 <= Qmax g 0.
Proof.
  pose proof (clamped_speed_pos g) as Hpos. split; intros Hle.
  - apply Qnot_lt_le. intros Hlt. apply Hpos in Hlt. lra.
  - apply Qnot_lt_le. intros Hlt. apply Hpos in Hlt. lra.
Qed.

(** Which exit is taken, by the clamped grade. *)
Lemma calculate_fuel_cost_total d g :
  (Qmax g 0 < 25 /\
   calculate_fuel_cost d g =
     Return (FuelSpeed
               (fuel_burn_rate (py_max g 0)
                * (d / get_optimal_speed (py_max g 0)))
               (get_optimal_speed (py_max g 0)))) \/
  (25 <= Qmax g 0 /\ ~ square_overflows (Qmax g 0) /\
   calculate_fuel_cost d g = Return FloatInf) \/
  (25 <= Qmax g 0 /\ square_overflows (Qmax g 0) /\
   calculate_fuel_cost d g = Raise OverflowError).
Proof.
  destruct (Qlt_le_dec (Qmax g 0) 25) as [Hlt|Hge].
  - left. split; [exact Hlt|].
    now apply calculate_fuel_cost_pair, clamped_speed_pos.
  - right. destruct (square_overflows_dec (Qmax g 0)) as [Hov|Hno].
    + right. split; [exact Hge|]. split; [exact Hov|].
      now apply calculate_fuel_cost_overflow, clamped_square_overflows.
    + left. split; [exact Hge|]. split; [exact Hno|].
      apply calculate_fuel_cost_inf.
      * now rewrite clamped_square_overflows.
      * now apply clamped_speed_nonpos.
Qed.

End PhysicsFacts.

(* ===================================================================== *)
(** ** The cost model *)
(* ===================================================================== *)

Module CostModel.
Import Physics PhysicsFacts.

(** C5. [get_optimal_speed] is the piecewise-linear interpolant through the
    anchors (0,40), (5,25), (10,12), (15,8): it follows each segment on its
    closed interval, returns every anchor exactly, continues below 0 with the
    slope of the first segment and above 15 with the slope of the last one
    (no clamping), and gives 4 at grade 20. *)
Theorem get_optimal_speed_interpolates :
  (forall g, get_optimal_speed g == optimalSpeed_spec g) /\
  (forall g, 0 <= g <= 5 -> get_optimal_speed g == segment 0 40 5 25 g) /\
  (forall g, 5 <= g <= 10 -> get_optimal_speed g == segment 5 25 10 12 g) /\
  (forall g, 10 <= g <= 15 -> get_optimal_speed g == segment 10 12 15 8 g) /\
  (get_optimal_speed 0 == 40 /\ get_optimal_speed 5 == 25 /\
   get_optimal_speed 10 == 12 /\ get_optimal_speed 15 == 8) /\
  (forall g, g < 0 ->
     get_optimal_speed g == 40 + (g - 0) * ((25 - 40) / (5 - 0))) /\
  (forall g, 15 < g ->
     get_optimal_speed g == 8 + (g - 15) * ((8 - 12) / (15 - 10))) /\
  get_optimal_speed 20 == 8 + (20 - 15) * ((8 - 12) / (15 - 10)) /\
  get_optimal_speed 20 == 4.
Proof.
  split; [exact get_optimal_speed_spec|].
  repeat split; try reflexivity;
    intros g Hg; rewrite get_optimal_speed_spec;
    unfold optimalSpeed_spec, segment; cmp_cases; slopes; lra.
Qed.

(** C4. For a distance [d >= 0] and a grade [g] whose clamped value
    [g' = max(g,0)] has a positive optimal speed, [calculate_fuel_cost d g]
    returns the pair of [(180 + 25 g' + 8 g'^2) * (d / optimalSpeed g')] and
    [optimalSpeed g']. *)
Theorem calculate_fuel_cost_formula (d g : Q) :
  0 <= d ->
  0 < get_optimal_speed (Qmax g 0) ->
  exists fuelLiters speedKmh,
    calculate_fuel_cost d g = Return (FuelSpeed fuelLiters speedKmh) /\
    fuelLiters ==
      (180 + 25 * Qmax g 0 + 8 * (Qmax g 0) ^ 2)
      * (d / get_optimal_speed (Qmax g 0)) /\
    speedKmh == get_optimal_speed (Qmax g 0).
Proof.
  intros _ Hs.
  assert (Hc : get_optimal_speed (py_max g 0) == get_optimal_speed (Qmax g 0))
    by apply get_optimal_speed_compat, py_max_clamp.
  eexists _, _. split; [apply calculate_fuel_cost_pair; lra|].
  split; [|exact Hc].
  rewrite Hc. change (180 + 25 * Qmax g 0 + 8 * Qmax g 0 ^ 2)
    with (fuel_burn_rate (Qmax g 0)).
  now rewrite (fuel_burn_rate_compat _ _ (py_max_clamp g)).
Qed.

Lemma calculate_fuel_cost_formula_witness :
  exists fuelLiters speedKmh,
    calculate_fuel_cost 2 3 = Return (FuelSpeed fuelLiters speedKmh) /\
    fuelLiters ==
      (180 + 25 * Qmax 3 0 + 8 * (Qmax 3 0) ^ 2)
      * (2 / get_optimal_speed (Qmax 3 0)) /\
    speedKmh == get_optimal_speed (Qmax 3 0).
Proof.
  apply (calculate_fuel_cost_formula 2 3); [discriminate | reflexivity].
Defined.

(** C8. A negative grade gives the very same result as grade 0. *)
Theorem calculate_fuel_cost_negative_grade (d g : Q) :
  g < 0 -> calculate_fuel_cost d g = calculate_fuel_cost d 0.
Proof.
  intros Hg. unfold calculate_fuel_cost.
  assert (Hm : py_max g 0 = 0).
  { unfold py_max. apply Qlt_bool_true in Hg. now rewrite Hg. }
  now rewrite Hm.
Qed.

Lemma calculate_fuel_cost_negative_grade_witness :
  calculate_fuel_cost 2 (-3) = calculate_fuel_cost 2 0.
Proof.
  apply (calculate_fuel_cost_negative_grade 2 (-3)). reflexivity.
Defined.





(** C7, as stated, fails: at distance -1 and grade 0 the call raises nothing
    and returns the pair (-4.5, 40). *)
Lemma negative_distance_is_accepted :
  -1 < 0 /\
  (exists fuel speed,
     calculate_fuel_cost (-1) 0 = Return (FuelSpeed fuel speed) /\
     fuel == -(9 # 2) /\ speed == 40) /\
  ~ (forall d g, d < 0 -> exists e, calculate_fuel_cost d g = Raise e).
Proof.
  split; [reflexivity|]. split.
  - eexists _, _. split; [vm_compute; reflexivity|]. split; reflexivity.
  - intros Hall. destruct (Hall (-1) 0) as [e He]; [reflexivity|].
    vm_compute in He. discriminate He.
Qed.

(** C7, amended. [calculate_fuel_cost] does not check the distance: a
    negative distance is treated as any other.  With a clamped grade below
    25 the call returns the pair of [burn * (d / speed)], which is negative
    or zero, and the positive speed; with a clamped grade of 25 or more it
    returns infinity, unless the square of the clamped grade is out of
    range, where it raises OverflowError, as it does for every distance. *)
Theorem calculate_fuel_cost_negative_distance (d g : Q) :
  d < 0 ->
  (Qmax g 0 < 25 ->
     exists fuel speed,
       calculate_fuel_cost d g = Return (FuelSpeed fuel speed) /\
       fuel == fuel_burn_rate (Qmax g 0) * (d / get_optimal_speed (Qmax g 0)) /\
       speed == get_optimal_speed (Qmax g 0) /\
       fuel <= 0 /\ 0 < speed) /\
  (25 <= Qmax g 0 -> ~ square_overflows (Qmax g 0) ->
     calculate_fuel_cost d g = Return FloatInf) /\
  (square_overflows (Qmax g 0) ->
     calculate_fuel_cost d g = Raise OverflowError /\
     forall d', calculate_fuel_cost d' g = Raise OverflowError).
Proof.
  intros Hd. split; [|split].
  - intros Hg. apply clamped_speed_pos in Hg.
    assert (Hc : get_optimal_speed (py_max g 0)
                 == get_optimal_speed (Qmax g 0))
      by apply get_optimal_speed_compat, py_max_clamp.
    eexists _, _. split; [now apply calculate_fuel_cost_pair|].
    split; [|split; [exact Hc|split; [|exact Hg]]].
    + rewrite Hc. now rewrite (fuel_burn_rate_compat _ _ (py_max_clamp g)).
    + pose proof (fuel_burn_rate_pos _ (py_max_nonneg g)) as Hb.
      assert (Ht : d / get_optimal_speed (py_max g 0) < 0).
      { apply Qlt_shift_div_r; [exact Hg | lra]. }
      nra.
  - intros Hg Hno. apply calculate_fuel_cost_inf.
    + now rewrite clamped_square_overflows.
    + now apply clamped_speed_nonpos.
  - intros Hov. apply clamped_square_overflows in Hov.
    split; [|intros d']; now apply calculate_fuel_cost_overflow.
Qed.

Lemma calculate_fuel_cost_negative_distance_witness :
  (Qmax 0 0 < 25 ->
     exists fuel speed,
       calculate_fuel_cost (-1) 0 = Return (FuelSpeed fuel speed) /\
       fuel == fuel_burn_rate (Qmax 0 0)
               * (-1 / get_optimal_speed (Qmax 0 0)) /\
       speed == get_optimal_speed (Qmax 0 0) /\
       fuel <= 0 /\ 0 < speed) /\
  (25 <= Qmax 0 0 -> ~ square_overflows (Qmax 0 0) ->
     calculate_fuel_cost (-1) 0 = Return FloatInf) /\
  (square_overflows (Qmax 0 0) ->
     calculate_fuel_cost (-1) 0 = Raise OverflowError /\
     forall d', calculate_fuel_cost d' 0 = Raise OverflowError).
Proof.
  apply (calculate_fuel_cost_negative_distance (-1) 0). reflexivity.
Defined.

End CostModel.

(* ===================================================================== *)
(** ** The exhaustive solver meets the contract *)
(* ===================================================================== *)

Module LpFacts.
Import Lp.

Lemma route_eqb_eq a b : route_eqb a b = true <-> a = b.
Proof.
  unfold route_eqb. destruct a as [a1 a2], b as [b1 b2]. simpl.
  rewrite andb_true_iff, !String.eqb_eq. split.
  - intros [-> ->]. reflexivity.
  - intros [= -> ->]. split; reflexivity.
Qed.

Lemma chosen_In ones r : chosen ones r = true <-> In r ones.
Proof.
  unfold chosen. rewrite existsb_exists. split.
  - intros [r' [Hin Heq]]. apply route_eqb_eq in Heq. now subst.
  - intros Hin. exists r. split; [exact Hin | now apply route_eqb_eq].
Qed.

(** The value of an expression depends on its own variables only. *)
Lemma value_ext v w e :
  (forall r, In r (variables_of e) -> v r = w r) -> value v e = value w e.
Proof.
  induction e as [|[c r] e IH]; intros Hvw; [reflexivity|].
  simpl. unfold var_value. rewrite (Hvw r) by (left; reflexivity).
  rewrite IH; [reflexivity|]. intros r' Hr'. apply Hvw. now right.
Qed.

Lemma existsb_route_eqb r l : existsb (route_eqb r) l = true <-> In r l.
Proof. exact (chosen_In l r). Qed.

Lemma In_dedupe r l : In r l -> In r (dedupe l).
Proof.
  induction l as [|a l IH]; [intros []|]. simpl. intros [->|Hr].
  - destruct (existsb (route_eqb r) l) eqn:E.
    + apply IH, existsb_route_eqb, E.
    + now left.
  - destruct (existsb (route_eqb a) l); [now apply IH|]. right. now apply IH.
Qed.

Lemma holdsb_ext v w c :
  (forall r, In r (variables_of (lhs c)) -> v r = w r) ->
  holdsb v c = holdsb w c.
Proof.
  intros Hvw. unfold holdsb. now rewrite (value_ext v w (lhs c) Hvw).
Qed.

Lemma forallb_agree {A} (f g : A -> bool) l :
  (forall a, In a l -> f a = g a) -> forallb f l = forallb g l.
Proof.
  induction l as [|a l IH]; intros Hfg; [reflexivity|]. simpl.
  rewrite (Hfg a) by now left. rewrite IH; [reflexivity|].
  intros a' Ha'. apply Hfg. now right.
Qed.

Lemma feasibleb_ext v w p :
  (forall r, In r (variables p) -> v r = w r) ->
  feasibleb v p = feasibleb w p.
Proof.
  intros Hvw. unfold feasibleb. apply forallb_agree.
  intros c Hc. apply holdsb_ext. intros r Hr.
  apply Hvw, In_dedupe, in_or_app. right.
  apply in_flat_map. now exists c.
Qed.

Lemma objective_ext v w p :
  (forall r, In r (variables p) -> v r = w r) ->
  value v (objective p) = value w (objective p).
Proof.
  intros Hvw. apply value_ext. intros r Hr.
  apply Hvw, In_dedupe, in_or_app. now left.
Qed.

(** Every 0/1 point agrees, on the given variables, with one of the
    enumerated subsets. *)
Lemma filter_In_subsets (w : route -> bool) l :
  In (List.filter w l) (subsets l).
Proof.
  induction l as [|r l IH]; simpl; [now left|].
  apply in_or_app. destruct (w r).
  - left. now apply in_map.
  - now right.
Qed.

Lemma chosen_filter (w : route -> bool) l r :
  In r l -> chosen (List.filter w l) r = w r.
Proof.
  intros Hr. destruct (w r) eqn:E.
  - apply chosen_In, filter_In. now split.
  - destruct (chosen _ r) eqn:E'; [|reflexivity].
    apply chosen_In, filter_In in E'. destruct E' as [_ E']. congruence.
Qed.

Lemma In_candidates (w : route -> bool) p :
  feasible w p ->
  exists ones, In ones (candidates p) /\
    value (chosen ones) (objective p) = value w (objective p).
Proof.
  intros Hw. exists (List.filter w (variables p)).
  assert (Hagree : forall r, In r (variables p) ->
            chosen (List.filter w (variables p)) r = w r)
    by (intros r; apply chosen_filter).
  split.
  - apply filter_In. split; [apply filter_In_subsets|].
    now rewrite (feasibleb_ext _ w p Hagree).
  - now apply objective_ext.
Qed.

(** The running minimum kept by [cheaper]. *)
Lemma fold_cheaper p cands : forall init,
  match fold_left (cheaper p) cands init with
  | Some b =>
      (init = Some b \/ In b cands) /\
      (forall b0, init = Some b0 -> cost p b <= cost p b0) /\
      (forall c, In c cands -> cost p b <= cost p c)
  | None => init = None /\ cands = []
  end.
Proof.
  induction cands as [|c cands IH]; intros init; simpl.
  - destruct init as [b|]; [|now split].
    split; [now left|]. split; [|intros ? []].
    intros b0 [= <-]. apply Qle_refl.
  - specialize (IH (cheaper p init c)).
    destruct (fold_left _ cands _) as [b|].
    + destruct IH as (Hin & Hinit & Hall).
      assert (Hc : cost p b <= cost p c /\
                   forall b0, init = Some b0 -> cost p b <= cost p b0).
      { unfold cheaper in Hinit. destruct init as [b0|].
        - fold (cost p c) (cost p b0) in Hinit.
          destruct (Qlt_le_dec (cost p c) (cost p b0)) as [Hlt|Hle].
          + specialize (Hinit c eq_refl). split; [exact Hinit|].
            intros ? [= <-]. lra.
          + specialize (Hinit b0 eq_refl). split; [lra|].
            now intros ? [= <-].
        - specialize (Hinit c eq_refl). split; [exact Hinit|]. discriminate. }
      destruct Hc as [Hc Hinit']. split; [|split; [exact Hinit'|]].
      * destruct Hin as [Hin|Hin]; [|right; now right].
        unfold cheaper in Hin. destruct init as [b0|].
        -- destruct (Qlt_le_dec _ _); injection Hin as <-;
             [right; now left | now left].
        -- injection Hin as <-. right. now left.
      * intros c' [<-|Hc']; [exact Hc | now apply Hall].
    + destruct IH as [Hnone _]. unfold cheaper in Hnone.
      destruct init as [b0|]; [destruct (Qlt_le_dec _ _)|]; discriminate.
Qed.

Lemma exhaustive_solve_sound p v :
  exhaustive_solve p = (LpStatusOptimal, v) ->
  feasible v p /\
  forall w, feasible w p -> value v (objective p) <= value w (objective p).
Proof.
  unfold exhaustive_solve. intros Hs.
  pose proof (fold_cheaper p (candidates p) None) as Hf.
  destruct (fold_left _ _ None) as [b|]; [|discriminate].
  injection Hs as <-. destruct Hf as ([Hin|Hin] & _ & Hall); [discriminate|].
  split.
  - apply filter_In in Hin. exact (proj2 Hin).
  - intros w Hw. destruct (In_candidates w p Hw) as (ones & Hones & <-).
    exact (Hall ones Hones).
Qed.

Lemma exhaustive_solve_complete p w :
  feasible w p -> (exhaustive_solve p).1 = LpStatusOptimal.
Proof.
  intros Hw. unfold exhaustive_solve.
  pose proof (fold_cheaper p (candidates p) None) as Hf.
  destruct (fold_left _ _ None) as [b|]; [reflexivity|].
  destruct Hf as [_ Hnil].
  destruct (In_candidates w p Hw) as (ones & Hones & _).
  rewrite Hnil in Hones. destruct Hones.
Qed.

(** Exhaustive search meets the solver contract. *)
#[export] Instance exhaustive : Solver := {|
  solve := exhaustive_solve;
  solve_sound := exhaustive_solve_sound;
  solve_complete := exhaustive_solve_complete
|}.

End LpFacts.

(* ===================================================================== *)
(** ** Facts about the dispatch optimizer *)
(* ===================================================================== *)

Module DispatchFacts.
Import Physics PhysicsFacts Lp LpFacts Dispatch.

(** *** Loops that do not raise *)

Lemma for_each_pure {A S} (body : S -> A -> result S) (step : S -> A -> S) l :
  forall st,
    (forall st' a, In a l -> body st' a = Return (step st' a)) ->
    for_each l body st = Return (fold_left step l st).
Proof.
  induction l as [|a l IH]; intros st Hb; [reflexivity|].
  simpl. rewrite Hb by now left. simpl. apply IH.
  intros st' a' Ha'. apply Hb. now right.
Qed.

Lemma comprehension_pure {A B} (f : A -> result B) (g : A -> B) l :
  (forall a, In a l -> f a = Return (g a)) ->
  comprehension f l = Return (map g l).
Proof.
  induction l as [|a l IH]; intros Hf; [reflexivity|].
  simpl. rewrite Hf by now left. simpl.
  rewrite IH; [reflexivity|]. intros a' Ha'. apply Hf. now right.
Qed.

(** A loop raises as soon as its body does; until then it steps purely. *)
Lemma for_each_raises {A S} (body : S -> A -> result S) (bad : A -> Prop) l :
  (forall st a, In a l -> bad a -> exists e, body st a = Raise e) ->
  Exists bad l ->
  forall st, exists e, for_each l body st = Raise e.
Proof.
  intros Hbad Hex. induction Hex as [a l Ha|a l Hex IH]; intros st.
  - destruct (Hbad st a) as [e He]; [now left | exact Ha |].
    exists e. simpl. now rewrite He.
  - simpl. destruct (body st a) as [st'|e] eqn:E.
    + simpl. apply IH. intros st0 a0 Ha0. apply Hbad. now right.
    + now exists e.
Qed.

(** *** The cost matrix *)

Lemma route_figures_Some t s :
  is_Some (distance_from_trucks s !! truck_id t) ->
  Qmax (grade_percent s) 0 < 25 ->
  exists dist,
    distance_from_trucks s !! truck_id t = Some dist /\
    calculate_fuel_cost dist (grade_percent s)
      = Return (FuelSpeed (route_fuel t s) (route_speed t s)).
Proof.
  intros [dist Hd] Hg. exists dist. split; [exact Hd|].
  apply clamped_speed_pos in Hg.
  unfold route_fuel, route_speed, route_figures. rewrite Hd.
  now rewrite (calculate_fuel_cost_pair dist _ Hg).
Qed.

Lemma route_fuel_pos t s dist :
  distance_from_trucks s !! truck_id t = Some dist -> 0 < dist ->
  Qmax (grade_percent s) 0 < 25 -> 0 < route_fuel t s.
Proof.
  intros Hd Hdist Hg. apply clamped_speed_pos in Hg.
  unfold route_fuel, route_figures.
  rewrite Hd, (calculate_fuel_cost_pair dist _ Hg).
  pose proof (fuel_burn_rate_pos _ (py_max_nonneg (grade_percent s))) as Hb.
  apply Qmult_lt_0_compat; [exact Hb|]. apply Qlt_shift_div_l; lra.
Qed.

Lemma cost_matrix_pure trucks shovels :
  well_formed trucks shovels ->
  speeds_positive shovels ->
  cost_matrix trucks shovels
    = Return (fold_left (record_truck shovels) trucks (∅, ∅)).
Proof.
  intros [_ Hdist] Hpos. unfold cost_matrix.
  apply for_each_pure. intros st t Ht.
  apply for_each_pure. intros [costs speed_log] s Hs.
  destruct (route_figures_Some t s (Hdist t s Ht Hs) (Hpos s Hs))
    as (dist & Hd & Hc).
  unfold getitem. rewrite Hd. simpl. rewrite Hc. reflexivity.
Qed.

Lemma NoDup_map_inj {A B} (f : A -> B) l a b :
  NoDup (map f l) -> In a l -> In b l -> f a = f b -> a = b.
Proof.
  induction l as [|c l IH]; [intros _ []|].
  simpl. intros Hnd Ha Hb Hab. apply NoDup_cons in Hnd as [Hc Hnd].
  rewrite list_elem_of_In in Hc.
  destruct Ha as [->|Ha], Hb as [->|Hb].
  - reflexivity.
  - exfalso. apply Hc. rewrite Hab. now apply in_map.
  - exfalso. apply Hc. rewrite <- Hab. now apply in_map.
  - now apply IH.
Qed.

Lemma key_inj shovels t s t' s' :
  NoDup (map shovel_id shovels) -> In s shovels -> In s' shovels ->
  key t s = key t' s' -> t = t' /\ s = s'.
Proof.
  intros Hnd Hs Hs' [= Ht Hid]. split.
  - destruct t, t'. simpl in Ht. now subst.
  - exact (NoDup_map_inj shovel_id shovels s s' Hnd Hs Hs' Hid).
Qed.

Lemma In_pairs trucks shovels t s :
  In (t, s) (pairs trucks shovels) <-> In t trucks /\ In s shovels.
Proof.
  unfold pairs. rewrite in_flat_map. split.
  - intros (t' & Ht' & Hin). apply in_map_iff in Hin as (s' & [= -> ->] & Hs').
    now split.
  - intros [Ht Hs]. exists t. split; [exact Ht|]. now apply in_map.
Qed.

(** A dict filled by successive insertions holds, at a key whose writers
    all agree, the agreed value. *)
Lemma fold_insert_lookup {A} (k : A -> route) (g : A -> Q) l a :
  (forall b, In b l -> k b = k a -> g b = g a) ->
  forall m : gmap route Q,
    In a l \/ m !! k a = Some (g a) ->
    fold_left (fun m b => <[k b := g b]> m) l m !! k a = Some (g a).
Proof.
  induction l as [|b l IH]; intros Hagree m Hin; simpl.
  - destruct Hin as [[]|Hm]. exact Hm.
  - apply IH; [intros b' Hb'; apply Hagree; now right|].
    destruct (decide (k b = k a)) as [Heq|Hne].
    + right. rewrite Heq, <- (Hagree b) by (now left || exact Heq).
      apply lookup_insert_eq.
    + destruct Hin as [[->|Hin]|Hm]; [congruence | now left |].
      right. now rewrite lookup_insert_ne.
Qed.

Lemma record_truck_flat shovels trucks : forall st,
  fold_left (record_truck shovels) trucks st
  = (fold_left (fun m p => <[pair_key p := route_fuel p.1 p.2]> m)
       (pairs trucks shovels) st.1,
     fold_left (fun m p => <[pair_key p := route_speed p.1 p.2]> m)
       (pairs trucks shovels) st.2).
Proof.
  induction trucks as [|t trucks IH]; intros st; [now destruct st|].
  simpl. rewrite IH, !fold_left_app. f_equal.
  - f_equal. unfold record_truck. clear. revert st.
    induction shovels as [|s shovels IHs]; intros st; [reflexivity|].
    simpl. now rewrite IHs.
  - f_equal. unfold record_truck. clear. revert st.
    induction shovels as [|s shovels IHs]; intros st; [reflexivity|].
    simpl. now rewrite IHs.
Qed.

(** What the dicts hold once the cost matrix is built. *)
Lemma cost_matrix_lookup trucks shovels :
  well_formed trucks shovels ->
  speeds_positive shovels ->
  exists costs speed_log,
    cost_matrix trucks shovels = Return (costs, speed_log) /\
    forall t s, In t trucks -> In s shovels ->
      costs !! key t s = Some (route_fuel t s) /\
      speed_log !! key t s = Some (route_speed t s).
Proof.
  intros Hwf Hpos. eexists _, _.
  split; [rewrite (cost_matrix_pure _ _ Hwf Hpos), record_truck_flat;
          reflexivity|].
  destruct Hwf as [Hnd _]. intros t s Ht Hs.
  assert (Hagree : forall b : truck * shovel,
            In b (pairs trucks shovels) ->
            pair_key b = pair_key (t, s) -> b = (t, s)).
  { intros [t' s'] Hb Hk. apply In_pairs in Hb as [_ Hs'].
    destruct (key_inj shovels t' s' t s Hnd Hs' Hs Hk) as [-> ->].
    reflexivity. }
  split.
  - apply (fold_insert_lookup pair_key (fun p => route_fuel p.1 p.2) _ (t, s)).
    + intros b Hb Hk. now rewrite (Hagree b Hb Hk).
    + left. now apply In_pairs.
  - apply (fold_insert_lookup pair_key (fun p => route_speed p.1 p.2) _ (t, s)).
    + intros b Hb Hk. now rewrite (Hagree b Hb Hk).
    + left. now apply In_pairs.
Qed.

(** *** The program that is built *)

Lemma build_problem_pure (trucks : list truck) (shovels : list shovel)
    (costs : gmap route Q) :
  (forall t s, In t trucks -> In s shovels ->
     costs !! key t s = Some (route_fuel t s)) ->
  build_problem trucks shovels costs = Return (the_problem trucks shovels).
Proof.
  intros Hc. unfold build_problem, objective_function.
  rewrite (comprehension_pure _
             (fun p => scaled (pair_key p) (route_fuel p.1 p.2))).
  - reflexivity.
  - intros [t s] Hin. apply In_pairs in Hin as [Ht Hs].
    unfold getitem. now rewrite (Hc t s Ht Hs).
Qed.

(** *** The table that is printed *)

Lemma Qeq_bool_var_value v r : Qeq_bool (var_value v r) 1 = v r.
Proof. unfold var_value. now destruct (v r). Qed.

Lemma fold_left_append {A B} (h : A -> list B) l : forall rows,
  fold_left (fun rows a => rows ++ h a) l rows = rows ++ flat_map h l.
Proof.
  induction l as [|a l IH]; intros rows; simpl.
  - now rewrite app_nil_r.
  - now rewrite IH, app_assoc.
Qed.

Lemma flat_map_if {A B} (c : A -> bool) (h : A -> B) l :
  flat_map (fun a => if c a then [h a] else []) l = map h (List.filter c l).
Proof.
  induction l as [|a l IH]; [reflexivity|].
  simpl. destruct (c a); simpl; now rewrite IH.
Qed.

Lemma print_table_pure (trucks : list truck) (shovels : list shovel)
    (x_value : route -> bool) (costs speed_log : gmap route Q) :
  (forall t s, In t trucks -> In s shovels ->
     costs !! key t s = Some (route_fuel t s) /\
     speed_log !! key t s = Some (route_speed t s)) ->
  print_table trucks shovels x_value costs speed_log
    = Return (the_table trucks shovels x_value).
Proof.
  intros Hc. unfold print_table, the_table.
  rewrite (for_each_pure _
    (fun rows t => rows ++ map (row_of t) (selected x_value shovels t))).
  - now rewrite fold_left_append.
  - intros rows t Ht.
    rewrite (for_each_pure _
      (fun rows s => rows ++ (if x_value (key t s) then [row_of t s] else []))).
    + now rewrite fold_left_append, flat_map_if.
    + intros rows' s Hs. rewrite Qeq_bool_var_value.
      destruct (x_value (key t s)); [|now rewrite app_nil_r].
      destruct (Hc t s Ht Hs) as [Hcost Hspd].
      unfold getitem. rewrite Hcost, Hspd. reflexivity.
Qed.

(** *** Reading the constraints *)

Lemma value_app v e1 e2 : value v (e1 ++ e2) == value v e1 + value v e2.
Proof.
  induction e1 as [|[c r] e1 IH]; simpl; [lra|]. rewrite IH. lra.
Qed.

Lemma inject_Z_S n : inject_Z (Z.of_nat (S n)) == 1 + inject_Z (Z.of_nat n).
Proof. rewrite Nat2Z.inj_succ, <- Z.add_1_l, inject_Z_plus. reflexivity. Qed.

(** A sum of variables counts those set to 1. *)
Lemma value_units {A} (k : A -> route) l v :
  value v (lpSum (map (fun a => term 1 (k a)) l))
  == inject_Z (Z.of_nat (length (List.filter (fun a => v (k a)) l))).
Proof.
  unfold lpSum, term. induction l as [|a l IH]; [reflexivity|].
  cbn [map concat app value List.filter]. rewrite IH.
  unfold var_value. destruct (v (k a)).
  - cbn [length]. rewrite inject_Z_S. lra.
  - lra.
Qed.

Lemma holdsb_constraint_A v shovels t :
  holdsb v (constraint_A shovels t) = true <->
  length (selected v shovels t) = 1%nat.
Proof.
  unfold holdsb, constraint_A, selected. cbn [sense lhs rhs].
  rewrite Qeq_bool_iff, value_units.
  change 1 with (inject_Z (Z.of_nat 1)). split.
  - intros Heq. apply (proj1 (inject_Z_injective _ _)) in Heq. lia.
  - intros ->. reflexivity.
Qed.

Lemma holdsb_constraint_B v trucks s :
  holdsb v (constraint_B trucks s) = true <->
  (Z.of_nat (length (loaded v trucks s)) <= max_queue s)%Z.
Proof.
  unfold holdsb, constraint_B, loaded. cbn [sense lhs rhs].
  rewrite Qle_bool_iff, value_units, <- Zle_Qle. reflexivity.
Qed.

Lemma feasible_the_problem v trucks shovels :
  feasible v (the_problem trucks shovels) <->
  (forall t, In t trucks -> length (selected v shovels t) = 1%nat) /\
  (forall s, In s shovels ->
     (Z.of_nat (length (loaded v trucks s)) <= max_queue s)%Z).
Proof.
  unfold feasible, feasibleb, the_problem. cbn [constraints].
  rewrite forallb_app, andb_true_iff, !forallb_forall.
  split.
  - intros [HA HB]. split.
    + intros t Ht. apply holdsb_constraint_A, HA. now apply in_map.
    + intros s Hs. apply holdsb_constraint_B, HB. now apply in_map.
  - intros [HA HB]. split.
    + intros c Hc. apply in_map_iff in Hc as (t & <- & Ht).
      now apply holdsb_constraint_A, HA.
    + intros c Hc. apply in_map_iff in Hc as (s & <- & Hs).
      now apply holdsb_constraint_B, HB.
Qed.

(** *** Reading the objective *)

Lemma Qsum_app l1 l2 : Qsum (l1 ++ l2) == Qsum l1 + Qsum l2.
Proof.
  unfold Qsum. induction l1 as [|a l1 IH]; simpl; [lra|]. rewrite IH. lra.
Qed.

Lemma value_scaled v r c : value v (scaled r c) == c * var_value v r.
Proof.
  unfold scaled, term. destruct (Qeq_bool c 0) eqn:E; cbn [value]; [|lra].
  apply Qeq_bool_iff in E. rewrite E. lra.
Qed.

(** The objective value is the fuel of the printed rows. *)
Lemma value_objective v trucks shovels :
  value v (objective (the_problem trucks shovels))
  == Qsum (map row_fuel (the_table trucks shovels v)).
Proof.
  unfold the_problem, the_table, pairs, lpSum. cbn [objective].
  induction trucks as [|t trucks IH]; [reflexivity|].
  cbn [flat_map]. rewrite !map_app, concat_app, value_app, Qsum_app, IH.
  apply Qplus_comp; [|reflexivity]. clear IH.
  unfold selected.
  induction shovels as [|s shovels IHs]; [reflexivity|].
  cbn [map concat List.filter]. rewrite value_app, value_scaled, IHs.
  unfold var_value, pair_key. cbn [fst snd].
  destruct (v (key t s)); cbn [map Qsum fold_right row_of row_fuel];
    unfold Qsum; lra.
Qed.

(** The objective has a term as soon as one route has a cost other than
    zero. *)
Lemma objective_has_terms trucks shovels :
  some_cost trucks shovels ->
  objective (the_problem trucks shovels) <> [].
Proof.
  intros (t & s & Ht & Hs & Hcost). unfold the_problem. cbn [objective].
  assert (Hin : In (t, s) (pairs trucks shovels)) by now apply In_pairs.
  revert Hin. generalize (pairs trucks shovels) as l.
  induction l as [|p l IH]; [intros []|].
  intros [->|Hin]; cbn [map lpSum concat].
  - unfold scaled, term. cbn [fst snd].
    destruct (Qeq_bool (route_fuel t s) 0) eqn:E; [|discriminate].
    apply Qeq_bool_iff in E. contradiction.
  - intros Happ. apply app_eq_nil in Happ as [_ Hnil]. now apply IH.
Qed.

(** *** Assignments and 0/1 points *)

Lemma filter_none {A} (c : A -> bool) l :
  (forall a, In a l -> c a = false) -> List.filter c l = [].
Proof.
  induction l as [|a l IH]; intros Hc; [reflexivity|].
  simpl. rewrite (Hc a) by now left. apply IH.
  intros a' Ha'. apply Hc. now right.
Qed.

Lemma filter_single shovels a :
  NoDup (map shovel_id shovels) -> In a shovels ->
  List.filter (fun s => String.eqb (shovel_id s) (shovel_id a)) shovels = [a].
Proof.
  induction shovels as [|b shovels IH]; [intros _ []|].
  intros Hnd Ha. pose proof Hnd as Hnd'.
  cbn [map] in Hnd'. apply NoDup_cons in Hnd' as [Hb Hnd'].
  rewrite list_elem_of_In in Hb. cbn [List.filter].
  destruct (String.eqb (shovel_id b) (shovel_id a)) eqn:E.
  - apply String.eqb_eq in E.
    assert (b = a) as ->
      by (apply (NoDup_map_inj shovel_id (b :: shovels)); auto; now left).
    f_equal. apply filter_none. intros s Hs.
    apply String.eqb_neq. intros Heq. apply Hb. rewrite <- Heq.
    now apply in_map.
  - apply String.eqb_neq in E. destruct Ha as [->|Ha]; [congruence|].
    now apply IH.
Qed.

Lemma point_of_key trucks f t s :
  In t trucks ->
  point_of trucks f (key t s)
  = String.eqb (shovel_id s) (shovel_id (f t)).
Proof.
  intros Ht. unfold point_of.
  destruct (String.eqb (shovel_id s) (shovel_id (f t))) eqn:E.
  - apply existsb_exists. exists t. split; [exact Ht|].
    apply route_eqb_eq. unfold key. f_equal. now apply String.eqb_eq.
  - destruct (existsb _ trucks) eqn:E'; [|reflexivity].
    apply existsb_exists in E' as (t' & _ & Hk).
    apply route_eqb_eq in Hk. injection Hk as Ht' Hs.
    assert (t = t') as <- by (destruct t, t'; simpl in Ht'; now subst).
    apply String.eqb_neq in E. contradiction.
Qed.

Lemma selected_point_of trucks shovels f t :
  NoDup (map shovel_id shovels) -> In t trucks -> In (f t) shovels ->
  selected (point_of trucks f) shovels t = [f t].
Proof.
  intros Hnd Ht Hf. unfold selected.
  rewrite <- (filter_single shovels (f t) Hnd Hf).
  apply filter_ext. intros s. now apply point_of_key.
Qed.

Lemma load_point_of trucks f s :
  loaded (point_of trucks f) trucks s = queue trucks f s.
Proof.
  unfold loaded, queue. apply filter_ext_in. intros t Ht.
  rewrite (point_of_key _ _ _ _ Ht). apply String.eqb_sym.
Qed.

Lemma point_of_feasible trucks shovels f :
  NoDup (map shovel_id shovels) ->
  valid_assignment trucks shovels f ->
  feasible (point_of trucks f) (the_problem trucks shovels).
Proof.
  intros Hnd [Hin Hcap]. apply feasible_the_problem. split.
  - intros t Ht. now rewrite (selected_point_of _ _ _ _ Hnd Ht (Hin t Ht)).
  - intros s Hs. rewrite load_point_of. now apply Hcap.
Qed.

(** When every truck has exactly the shovel [f t] selected, the table is
    the graph of [f] and its fuel column sums to the cost of [f]. *)
Lemma the_table_graph trucks shovels v f :
  (forall t, In t trucks -> selected v shovels t = [f t]) ->
  the_table trucks shovels v = map (fun t => row_of t (f t)) trucks.
Proof.
  intros Hsel. unfold the_table.
  induction trucks as [|t trucks IH]; [reflexivity|].
  cbn [flat_map map]. rewrite (Hsel t) by now left.
  rewrite IH; [reflexivity|]. intros t' Ht'. apply Hsel. now right.
Qed.

Lemma table_fuel_cost trucks f :
  Qsum (map row_fuel (map (fun t => row_of t (f t)) trucks))
  = assignment_cost trucks f.
Proof. unfold assignment_cost. now rewrite map_map. Qed.

Lemma selected_choice v shovels d t :
  length (selected v shovels t) = 1%nat ->
  selected v shovels t = [choice v shovels d t].
Proof.
  unfold choice. destruct (selected v shovels t) as [|s [|s' l]];
    try discriminate. reflexivity.
Qed.

Lemma choice_valid trucks shovels v d :
  NoDup (map shovel_id shovels) ->
  feasible v (the_problem trucks shovels) ->
  valid_assignment trucks shovels (choice v shovels d).
Proof.
  intros Hnd Hv. apply feasible_the_problem in Hv as [HA HB].
  assert (Hsel : forall t, In t trucks ->
            selected v shovels t = [choice v shovels d t])
    by (intros t Ht; now apply selected_choice, HA).
  assert (Hin : forall t, In t trucks -> In (choice v shovels d t) shovels).
  { intros t Ht. assert (Hc : In (choice v shovels d t) (selected v shovels t))
      by (rewrite (Hsel t Ht); now left).
    apply filter_In in Hc. exact (proj1 Hc). }
  split; [exact Hin|].
  intros s Hs. replace (queue trucks (choice v shovels d) s)
    with (loaded v trucks s); [now apply HB|].
  unfold loaded, queue. apply filter_ext_in. intros t Ht.
  destruct (v (key t s)) eqn:E.
  - assert (Hc : In s (selected v shovels t))
      by (apply filter_In; now split).
    rewrite (Hsel t Ht) in Hc. destruct Hc as [<-|[]].
    symmetry. apply String.eqb_refl.
  - symmetry. apply String.eqb_neq. intros Heq.
    assert (choice v shovels d t = s) as Hcs
      by (apply (NoDup_map_inj shovel_id shovels); auto).
    assert (Hc : In s (selected v shovels t))
      by (rewrite (Hsel t Ht), Hcs; now left).
    apply filter_In in Hc. destruct Hc as [_ Hc]. congruence.
Qed.

(** *** Counting the selected routes by truck and by shovel *)

Lemma list_sum_map_add {A} (a b : A -> nat) l :
  list_sum (map (fun x => a x + b x)%nat l)
  = (list_sum (map a l) + list_sum (map b l))%nat.
Proof. induction l as [|x l IH]; simpl; lia. Qed.

Lemma length_filter_sum {A} (c : A -> bool) l :
  length (List.filter c l)
  = list_sum (map (fun x => if c x then 1 else 0)%nat l).
Proof.
  induction l as [|x l IH]; [reflexivity|].
  simpl. destruct (c x); simpl; lia.
Qed.

Lemma list_sum_cons a l : list_sum (a :: l) = (a + list_sum l)%nat.
Proof. reflexivity. Qed.

Lemma count_swap v trucks shovels :
  list_sum (map (fun t => length (selected v shovels t)) trucks)
  = list_sum (map (fun s => length (loaded v trucks s)) shovels).
Proof.
  induction trucks as [|t trucks IH].
  - simpl. induction shovels as [|s shovels IHs]; [reflexivity|exact IHs].
  - cbn [map]. rewrite list_sum_cons, IH. unfold selected at 1.
    rewrite length_filter_sum, <- list_sum_map_add.
    f_equal. apply map_ext. intros s. unfold loaded. cbn [List.filter].
    destruct (v (key t s)); reflexivity.
Qed.

Lemma list_sum_ones {A} (c : A -> nat) l :
  (forall a, In a l -> c a = 1%nat) -> list_sum (map c l) = length l.
Proof.
  induction l as [|a l IH]; intros Hc; [reflexivity|].
  simpl. rewrite (Hc a) by now left. rewrite IH; [reflexivity|].
  intros a' Ha'. apply Hc. now right.
Qed.

Lemma list_sum_capacity (c : shovel -> nat) shovels :
  (forall s, In s shovels -> (Z.of_nat (c s) <= max_queue s)%Z) ->
  (Z.of_nat (list_sum (map c shovels)) <= total_capacity shovels)%Z.
Proof.
  unfold total_capacity.
  induction shovels as [|s shovels IH]; intros Hc; [reflexivity|].
  cbn [map fold_right]. rewrite list_sum_cons, Nat2Z.inj_add.
  specialize (Hc s (or_introl eq_refl)) as Hs.
  assert (IH' := IH (fun s' Hs' => Hc s' (or_intror Hs'))). lia.
Qed.

(** No 0/1 point is feasible when the queues cannot hold all trucks. *)
Lemma capacity_shortage_infeasible v trucks shovels :
  (total_capacity shovels < Z.of_nat (length trucks))%Z ->
  ~ feasible v (the_problem trucks shovels).
Proof.
  intros Hshort Hv. apply feasible_the_problem in Hv as [HA HB].
  pose proof (count_swap v trucks shovels) as Hswap.
  rewrite (list_sum_ones _ trucks HA) in Hswap.
  pose proof (list_sum_capacity _ shovels HB) as Hcap. lia.
Qed.

(** *** The optimizer on well-formed input with positive speeds *)

Section Optimizer.
Context `{Solver}.

(** Once the cost matrix is built and no two variables share a name, the
    call is the solve of [the_problem] and the printing of its outcome. *)
Lemma opt_fleet_dispatch_unfold trucks shovels :
  well_formed trucks shovels ->
  speeds_positive shovels ->
  names_distinct trucks shovels ->
  opt_fleet_dispatch trucks shovels =
    let '(status, x_value) := solve (the_problem trucks shovels) in
    if LpStatus_eqb status LpStatusOptimal then
      let* total_fuel :=
        format_float
          (objective_value x_value
             (objective (the_problem trucks shovels))) in
      Return (PrintedOptimal total_fuel (the_table trucks shovels x_value))
    else Return (PrintedNoOptimal status).
Proof.
  intros Hwf Hpos Hnames.
  destruct (cost_matrix_lookup trucks shovels Hwf Hpos)
    as (costs & speed_log & Hcm & Hlook).
  unfold opt_fleet_dispatch. rewrite Hcm. cbn [bind].
  rewrite (build_problem_pure trucks shovels costs)
    by (intros t s Ht Hs; apply (Hlook t s Ht Hs)).
  cbn [bind]. unfold prob_solve. rewrite Hnames. cbn [bind].
  destruct (solve _) as [status x_value].
  destruct (LpStatus_eqb status LpStatusOptimal); [|reflexivity].
  destruct (format_float _) as [total_fuel|e]; [|reflexivity]. cbn [bind].
  now rewrite (print_table_pure trucks shovels x_value costs speed_log Hlook).
Qed.

Lemma format_objective_value v trucks shovels :
  some_cost trucks shovels ->
  format_float (objective_value v (objective (the_problem trucks shovels)))
  = Return (value v (objective (the_problem trucks shovels))).
Proof.
  intros Hcost. apply objective_has_terms in Hcost.
  destruct (objective (the_problem trucks shovels)); [contradiction|].
  reflexivity.
Qed.

Lemma LpStatus_eqb_eq a b : LpStatus_eqb a b = true <-> a = b.
Proof. destruct a, b; simpl; split; congruence. Qed.

(** Where an assignment exists, the call prints status Optimal, a table with
    one row per truck that is the graph of a valid assignment, and a total
    that is the cost of that assignment and at most the cost of any valid
    assignment. *)
Theorem opt_fleet_dispatch_optimal trucks shovels :
  well_formed trucks shovels ->
  speeds_positive shovels ->
  names_distinct trucks shovels ->
  some_cost trucks shovels ->
  (exists g, valid_assignment trucks shovels g) ->
  exists total f,
    opt_fleet_dispatch trucks shovels
      = Return (PrintedOptimal total (map (fun t => row_of t (f t)) trucks)) /\
    valid_assignment trucks shovels f /\
    total == assignment_cost trucks f /\
    forall g, valid_assignment trucks shovels g ->
      total <= assignment_cost trucks g.
Proof.
  intros Hwf Hpos Hnames Hsome [g0 Hg0]. pose proof Hwf as [Hnd _].
  rewrite (opt_fleet_dispatch_unfold _ _ Hwf Hpos Hnames).
  pose proof (solve_complete _ _ (point_of_feasible _ _ _ Hnd Hg0)) as Hst.
  destruct (solve (the_problem trucks shovels)) as [status v] eqn:Hsolve.
  simpl in Hst. subst status. cbn [LpStatus_eqb].
  rewrite (format_objective_value v _ _ Hsome). cbn [bind].
  destruct (solve_sound _ _ Hsolve) as [Hv Hmin].
  set (f := choice v shovels g0).
  assert (Hf : valid_assignment trucks shovels f)
    by now apply choice_valid.
  assert (Hsel : forall t, In t trucks -> selected v shovels t = [f t]).
  { intros t Ht. apply selected_choice.
    apply feasible_the_problem in Hv. now apply (proj1 Hv). }
  assert (Hcost : forall w h,
            (forall t, In t trucks -> selected w shovels t = [h t]) ->
            value w (objective (the_problem trucks shovels))
            == assignment_cost trucks h).
  { intros w h Hw.
    now rewrite value_objective, (the_table_graph _ _ _ _ Hw),
      table_fuel_cost. }
  exists (value v (objective (the_problem trucks shovels))), f.
  split; [now rewrite (the_table_graph _ _ _ _ Hsel)|].
  split; [exact Hf|]. split; [now apply Hcost|].
  intros g Hg. rewrite <- (Hcost (point_of trucks g) g).
  - apply Hmin. now apply point_of_feasible.
  - intros t Ht. apply selected_point_of; auto. now apply (proj1 Hg).
Qed.

(** Where the queues cannot hold all trucks, the call prints the
    no-solution message under a status other than Optimal. *)
Theorem opt_fleet_dispatch_infeasible trucks shovels :
  well_formed trucks shovels ->
  speeds_positive shovels ->
  names_distinct trucks shovels ->
  (total_capacity shovels < Z.of_nat (length trucks))%Z ->
  exists status,
    opt_fleet_dispatch trucks shovels = Return (PrintedNoOptimal status) /\
    status <> LpStatusOptimal.
Proof.
  intros Hwf Hpos Hnames Hshort.
  rewrite (opt_fleet_dispatch_unfold _ _ Hwf Hpos Hnames).
  destruct (solve (the_problem trucks shovels)) as [status v] eqn:Hsolve.
  destruct (LpStatus_eqb status LpStatusOptimal) eqn:E.
  - apply LpStatus_eqb_eq in E. subst status.
    destruct (solve_sound _ _ Hsolve) as [Hv _].
    now apply capacity_shortage_infeasible in Hv.
  - exists status. split; [reflexivity|].
    intros ->. discriminate E.
Qed.

End Optimizer.

End DispatchFacts.

(* ===================================================================== *)
(** ** The optimizer on concrete and degenerate input *)
(* ===================================================================== *)

Module DispatchClaims.
Import Physics PhysicsFacts Lp LpFacts Dispatch DispatchFacts.

Lemma for_each_raises_with {A S} (body : S -> A -> result S)
    (bad : A -> Prop) (e : exn) l :
  (forall st a, In a l ->
     (exists st', body st a = Return st') \/ body st a = Raise e) ->
  (forall st a, In a l -> bad a -> body st a = Raise e) ->
  Exists bad l ->
  forall st, for_each l body st = Raise e.
Proof.
  intros Hstep Hbad Hex. induction Hex as [a l Ha|a l Hex IH]; intros st.
  - simpl. now rewrite (Hbad st a (or_introl eq_refl) Ha).
  - simpl. destruct (Hstep st a (or_introl eq_refl)) as [[st' ->]| ->];
      [|reflexivity].
    simpl. apply IH.
    + intros st0 a0 Ha0. apply Hstep. now right.
    + intros st0 a0 Ha0. apply Hbad. now right.
Qed.

Lemma calculate_fuel_cost_degenerate d g :
  25 <= Qmax g 0 -> ~ square_overflows (Qmax g 0) ->
  calculate_fuel_cost d g = Return FloatInf.
Proof.
  intros Hg Hno. apply calculate_fuel_cost_inf.
  - now rewrite clamped_square_overflows.
  - now apply clamped_speed_nonpos.
Qed.

(** With a degenerate shovel in the list the cost matrix is never built. *)
Lemma cost_matrix_degenerate trucks shovels :
  trucks <> [] -> Exists degenerate shovels ->
  exists e, cost_matrix trucks shovels = Raise e.
Proof.
  intros Hne Hex. destruct trucks as [|t trucks]; [contradiction|].
  unfold cost_matrix. cbn [for_each].
  match goal with
  | |- context [for_each shovels ?body ?st] =>
      assert (exists e, for_each shovels body st = Raise e) as [e He];
        [apply (for_each_raises body degenerate); [|exact Hex]|]
  end.
  - intros [costs speed_log] s _ Hs. unfold getitem.
    destruct (distance_from_trucks s !! truck_id t) as [dist|];
      [|now exists KeyError].
    cbn [bind]. destruct (calculate_fuel_cost_total dist (grade_percent s))
      as [[Hlt _]|[(_ & _ & ->)|(_ & _ & ->)]].
    + unfold degenerate in Hs. lra.
    + now exists TypeError.
    + now exists OverflowError.
  - exists e. now rewrite He.
Qed.

Lemma cost_matrix_degenerate_TypeError trucks shovels :
  trucks <> [] -> Exists degenerate shovels ->
  (forall t s, In t trucks -> In s shovels ->
     is_Some (distance_from_trucks s !! truck_id t)) ->
  squares_in_range shovels ->
  cost_matrix trucks shovels = Raise TypeError.
Proof.
  intros Hne Hex Hdist Hrange. destruct trucks as [|t trucks]; [contradiction|].
  unfold cost_matrix. cbn [for_each].
  rewrite (for_each_raises_with _ degenerate TypeError shovels);
    [reflexivity| | |exact Hex].
  - intros [costs speed_log] s Hs. unfold getitem.
    destruct (Hdist t s (or_introl eq_refl) Hs) as [dist ->]. cbn [bind].
    destruct (calculate_fuel_cost_total dist (grade_percent s))
      as [[_ ->]|[(_ & _ & ->)|(_ & Hov & _)]].
    + left. eexists. reflexivity.
    + now right.
    + now apply Hrange in Hov.
  - intros [costs speed_log] s Hs Hbad. unfold getitem.
    destruct (Hdist t s (or_introl eq_refl) Hs) as [dist ->]. cbn [bind].
    now rewrite (calculate_fuel_cost_degenerate dist _ Hbad (Hrange s Hs)).
Qed.

Lemma Exists_degenerate shovels s :
  In s shovels -> degenerate s -> Exists degenerate shovels.
Proof. intros Hs Hd. apply List.Exists_exists. exists s. now split. Qed.

(** C10, as stated, fails: at grade 10^160 the clamped grade is 25 or more,
    yet the call returns no infinity; it raises OverflowError when squaring
    the grade, before the speed is looked at. *)
Lemma huge_grade_raises_OverflowError :
  25 <= Qmax (inject_Z (10 ^ 160)) 0 /\
  calculate_fuel_cost 1 (inject_Z (10 ^ 160)) = Raise OverflowError /\
  ~ (forall d g, 25 <= Qmax g 0 -> calculate_fuel_cost d g = Return FloatInf).
Proof.
  split; [discriminate|]. split; [vm_compute; reflexivity|].
  intros Hall. specialize (Hall 1 (inject_Z (10 ^ 160))).
  assert (Hg : 25 <= Qmax (inject_Z (10 ^ 160)) 0) by discriminate.
  apply Hall in Hg. vm_compute in Hg. discriminate Hg.
Qed.

(** C10, amended. With a clamped grade of 25 or more whose square is within
    the range of the floats, [calculate_fuel_cost] returns the bare float
    infinity, whereas with a smaller clamped grade it returns a pair;
    unpacking the bare float into two names raises TypeError.  Where the
    square of the clamped grade is out of range the call raises
    OverflowError instead.  Either way [opt_fleet_dispatch] raises whenever
    there is a truck and one of the shovels has such a grade: TypeError when
    the distances are on record and no grade has a square out of range. *)
Theorem degenerate_route_breaks_unpacking `{Solver} (d g : Q) :
  25 <= Qmax g 0 ->
  ~ square_overflows (Qmax g 0) ->
  calculate_fuel_cost d g = Return FloatInf /\
  bind (calculate_fuel_cost d g) unpack = Raise TypeError /\
  (forall d' g', Qmax g' 0 < 25 ->
     exists fuel speed,
       calculate_fuel_cost d' g' = Return (FuelSpeed fuel speed) /\
       bind (calculate_fuel_cost d' g') unpack = Return (fuel, speed)) /\
  (forall d' g', square_overflows (Qmax g' 0) ->
     25 <= Qmax g' 0 /\
     calculate_fuel_cost d' g' = Raise OverflowError) /\
  (forall trucks shovels s,
     trucks <> [] -> In s shovels -> grade_percent s = g ->
     (exists e, opt_fleet_dispatch trucks shovels = Raise e) /\
     ((forall t s', In t trucks -> In s' shovels ->
         is_Some (distance_from_trucks s' !! truck_id t)) ->
      squares_in_range shovels ->
      opt_fleet_dispatch trucks shovels = Raise TypeError)).
Proof.
  intros Hg Hno.
  pose proof (calculate_fuel_cost_degenerate d g Hg Hno) as Hinf.
  split; [exact Hinf|]. split; [now rewrite Hinf|]. split; [|split].
  - intros d' g' Hg'. apply clamped_speed_pos in Hg'.
    eexists _, _. rewrite (calculate_fuel_cost_pair d' g' Hg').
    split; reflexivity.
  - intros d' g' Hov. split.
    + apply square_overflows_steep; [apply Q.le_max_r | exact Hov].
    + now apply calculate_fuel_cost_overflow, clamped_square_overflows.
  - intros trucks shovels s Hne Hs Hgs.
    assert (Hex : Exists degenerate shovels).
    { apply (Exists_degenerate shovels s Hs). unfold degenerate.
      now rewrite Hgs. }
    unfold opt_fleet_dispatch. split.
    + destruct (cost_matrix_degenerate trucks shovels Hne Hex) as [e He].
      exists e. now rewrite He.
    + intros Hdist Hrange.
      now rewrite (cost_matrix_degenerate_TypeError trucks shovels
                     Hne Hex Hdist Hrange).
Qed.

Lemma degenerate_route_breaks_unpacking_witness :
  calculate_fuel_cost 8 30 = Return FloatInf /\
  bind (calculate_fuel_cost 8 30) unpack = Raise TypeError /\
  (forall d' g', Qmax g' 0 < 25 ->
     exists fuel speed,
       calculate_fuel_cost d' g' = Return (FuelSpeed fuel speed) /\
       bind (calculate_fuel_cost d' g') unpack = Return (fuel, speed)) /\
  (forall d' g', square_overflows (Qmax g' 0) ->
     25 <= Qmax g' 0 /\
     calculate_fuel_cost d' g' = Raise OverflowError) /\
  (forall trucks shovels s,
     trucks <> [] -> In s shovels -> grade_percent s = 30 ->
     (exists e, @opt_fleet_dispatch exhaustive trucks shovels = Raise e) /\
     ((forall t s', In t trucks -> In s' shovels ->
         is_Some (distance_from_trucks s' !! truck_id t)) ->
      squares_in_range shovels ->
      @opt_fleet_dispatch exhaustive trucks shovels = Raise TypeError)).
Proof.
  apply (@degenerate_route_breaks_unpacking exhaustive 8 30).
  - discriminate.
  - intros [_ Hsq]. apply Hsq. vm_compute. reflexivity.
Defined.

(** C6. One truck, Shovel_A on a flat road and Shovel_B on a 30% grade: the
    cost model returns infinity for the route to Shovel_B and a finite pair
    for the route to Shovel_A, which is a valid assignment; the optimizer
    does not route around Shovel_B but stops with TypeError. *)
Theorem degenerate_route_is_fatal `{Solver} :
  calculate_fuel_cost 8 30 = Return FloatInf /\
  (exists fuel speed,
     calculate_fuel_cost 2 0 = Return (FuelSpeed fuel speed) /\
     fuel == 9 /\ speed == 40) /\
  valid_assignment [Truck_1] (shovel_data 2 2 0 30)
    (all_to (Shovel_A 2 0)) /\
  opt_fleet_dispatch [Truck_1] (shovel_data 2 2 0 30) = Raise TypeError.
Proof.
  split; [reflexivity|]. split.
  - eexists _, _. split; [vm_compute; reflexivity|]. split; reflexivity.
  - split; [|reflexivity]. split.
    + intros t _. now left.
    + intros s [<-|[<-|[]]]; vm_compute; discriminate.
Qed.

(** C1. Three trucks, Shovel_A with room for all three on a flat road and
    Shovel_B on a 30% grade: sending every truck to Shovel_A is a valid
    assignment, of cost 45, yet the call returns no assignment: it stops
    with TypeError while building the cost matrix. *)
Theorem feasible_input_without_result `{Solver} :
  valid_assignment truck_fleet (shovel_data 3 2 0 30) (all_to (Shovel_A 3 0)) /\
  assignment_cost truck_fleet (all_to (Shovel_A 3 0)) == 45 /\
  opt_fleet_dispatch truck_fleet (shovel_data 3 2 0 30) = Raise TypeError.
Proof.
  split; [|split; reflexivity]. split.
  - intros t _. now left.
  - intros s [<-|[<-|[]]]; vm_compute; discriminate.
Qed.

(** C3. Three trucks and two shovels of capacity 1 each, Shovel_B on a 30%
    grade: the capacities sum to 2 < 3, yet the call prints no status and no
    no-solution message: it stops with TypeError before the solver runs. *)
Theorem capacity_shortage_without_report `{Solver} :
  (total_capacity (shovel_data 1 1 0 30)
   < Z.of_nat (length truck_fleet))%Z /\
  opt_fleet_dispatch truck_fleet (shovel_data 1 1 0 30) = Raise TypeError /\
  forall r, opt_fleet_dispatch truck_fleet (shovel_data 1 1 0 30) <> Return r.
Proof.
  split; [reflexivity|]. split; [reflexivity|]. intros r. discriminate.
Qed.

Lemma simulation_well_formed qa qb ga gb :
  well_formed truck_fleet (shovel_data qa qb ga gb).
Proof.
  split.
  - cbn. repeat constructor; rewrite ?list_elem_of_In; simpl; intuition congruence.
  - intros t s [<-|[<-|[<-|[]]]] [<-|[<-|[]]]; vm_compute; eauto.
Qed.

Lemma flat_speeds_positive qa qb :
  speeds_positive (shovel_data qa qb 0 0).
Proof. intros s [<-|[<-|[]]]; reflexivity. Qed.

(** The variables of the simulation have six different names. *)
Lemma simulation_names_distinct qa qb ga gb :
  names_distinct truck_fleet (shovel_data qa qb ga gb).
Proof. reflexivity. Qed.

(** The road from Truck_1 to Shovel_A is 2 km long and costs fuel. *)
Lemma simulation_some_cost qa qb ga gb :
  Qmax ga 0 < 25 -> some_cost truck_fleet (shovel_data qa qb ga gb).
Proof.
  intros Hg. exists Truck_1, (Shovel_A qa ga).
  split; [now left|]. split; [now left|].
  assert (Hpos : 0 < route_fuel Truck_1 (Shovel_A qa ga)).
  { apply (route_fuel_pos _ _ 2); [reflexivity | reflexivity | exact Hg]. }
  intros Hz. rewrite Hz in Hpos. now apply Qlt_irrefl in Hpos.
Qed.

Lemma expected_plan_valid :
  valid_assignment truck_fleet (shovel_data 2 2 0 0) expected_plan.
Proof.
  split.
  - intros t [<-|[<-|[<-|[]]]]; vm_compute; auto.
  - intros s [<-|[<-|[]]]; vm_compute; discriminate.
Qed.

(** C2. On the three trucks and two shovels of the simulation run, with
    both queue limits 2 and both roads flat, the call prints status Optimal,
    the rows Truck_1 -> Shovel_A, Truck_2 -> Shovel_B, Truck_3 -> Shovel_A,
    and the total 180 * (2/40 + 3/40 + 1/40) = 27 litres. *)
Theorem simulation_run_flat `{Solver} :
  exists total table,
    opt_fleet_dispatch truck_fleet (shovel_data 2 2 0 0)
      = Return (PrintedOptimal total table) /\
    map (fun r => (row_truck r, row_destination r)) table
      = [ ("Truck_1", "Shovel_A"); ("Truck_2", "Shovel_B");
          ("Truck_3", "Shovel_A") ]%string /\
    total == 180 * (2 / 40 + 3 / 40 + 1 / 40) /\
    total == 27.
Proof.
  assert (Hflat : Qmax 0 0 < 25) by reflexivity.
  destruct (opt_fleet_dispatch_optimal truck_fleet (shovel_data 2 2 0 0)
              (simulation_well_formed 2 2 0 0) (flat_speeds_positive 2 2)
              (simulation_names_distinct 2 2 0 0)
              (simulation_some_cost 2 2 0 0 Hflat)
              (ex_intro _ expected_plan expected_plan_valid))
    as (total & f & Hrun & [Hin _] & Hcost & Hmin).
  specialize (Hmin expected_plan expected_plan_valid).
  assert (Hexp : assignment_cost truck_fleet expected_plan == 27)
    by reflexivity.
  rewrite Hexp in Hmin.
  exists total, (map (fun t => row_of t (f t)) truck_fleet).
  split; [exact Hrun|].
  unfold assignment_cost, truck_fleet in Hcost.
  cbn [map Qsum fold_right] in Hcost.
  fold Truck_1 Truck_2 Truck_3 in Hcost.
  assert (HA1 : route_fuel Truck_1 (Shovel_A 2 0) == 9) by reflexivity.
  assert (HB1 : route_fuel Truck_1 (Shovel_B 2 0) == 36) by reflexivity.
  assert (HA2 : route_fuel Truck_2 (Shovel_A 2 0) == 45 # 2) by reflexivity.
  assert (HB2 : route_fuel Truck_2 (Shovel_B 2 0) == 9 # 2) by reflexivity.
  assert (HA3 : route_fuel Truck_3 (Shovel_A 2 0) == 27 # 2) by reflexivity.
  assert (HB3 : route_fuel Truck_3 (Shovel_B 2 0) == 81 # 2) by reflexivity.
  pose proof (Hin Truck_1 (or_introl eq_refl)) as H1.
  pose proof (Hin Truck_2 (or_intror (or_introl eq_refl))) as H2.
  pose proof (Hin Truck_3 (or_intror (or_intror (or_introl eq_refl)))) as H3.
  fold (Shovel_A 2 0) (Shovel_B 2 0) in H1, H2, H3.
  destruct H1 as [H1|[H1|[]]], H2 as [H2|[H2|[]]], H3 as [H3|[H3|[]]];
    rewrite <- H1, <- H2, <- H3 in Hcost;
    rewrite ?HA1, ?HB1, ?HA2, ?HB2, ?HA3, ?HB3 in Hcost;
    try (exfalso; lra).
  split; [|split; rewrite Hcost; reflexivity].
  unfold truck_fleet. cbn [map]. fold Truck_1 Truck_2 Truck_3.
  rewrite <- H1, <- H2, <- H3. reflexivity.
Qed.

(** The same run with both queue limits 1: the no-solution message. *)
Lemma simulation_run_short_queues `{Solver} :
  exists status,
    opt_fleet_dispatch truck_fleet (shovel_data 1 1 0 0)
      = Return (PrintedNoOptimal status) /\
    status <> LpStatusOptimal.
Proof.
  apply opt_fleet_dispatch_infeasible;
    [apply simulation_well_formed | apply flat_speeds_positive
    |apply simulation_names_distinct | reflexivity].
Qed.

End DispatchClaims.

(* ===================================================================== *)
(** ** The shape of the cost model *)
(* ===================================================================== *)

Module CostModelShape.
Import Physics PhysicsFacts.

(** X1. The burn rate [180 + 25 g + 8 g^2] never falls as the grade
    rises: of two non-negative grades whose squares are within the range of
    the floats, so that [**] returns for both, the larger has at least the
    burn rate of the smaller. *)
Theorem fuel_burn_rate_monotone (g1 g2 : Q) :
  0 <= g1 -> g1 <= g2 -> float_finite (g2 ^ 2) ->
  float_pow g1 2 = Return (g1 ^ 2) /\
  float_pow g2 2 = Return (g2 ^ 2) /\
  fuel_burn_rate g1 <= fuel_burn_rate g2.
Proof.
  intros H1 H12 Hfin.
  assert (Hfin1 : float_finite (g1 ^ 2)).
  { unfold float_finite in *. rewrite Qsquare in *.
    rewrite Qabs_pos in * by nra. nra. }
  split; [|split].
  - apply float_pow_returns. now intros [_ Hsq].
  - apply float_pow_returns. now intros [_ Hsq].
  - unfold fuel_burn_rate. rewrite !Qsquare. nra.
Qed.

Lemma fuel_burn_rate_monotone_witness :
  float_pow 3 2 = Return (3 ^ 2) /\
  float_pow 4 2 = Return (4 ^ 2) /\
  fuel_burn_rate 3 <= fuel_burn_rate 4.
Proof.
  apply (fuel_burn_rate_monotone 3 4); [discriminate | discriminate |].
  vm_compute. reflexivity.
Defined.

(** X2. The optimal speed never rises with the grade, over all grades,
    inside and outside the anchor table. *)
Theorem get_optimal_speed_monotone (g1 g2 : Q) :
  g1 <= g2 -> get_optimal_speed g2 <= get_optimal_speed g1.
Proof.
  intros H12. rewrite !get_optimal_speed_spec.
  unfold optimalSpeed_spec, segment. cmp_cases; slopes; lra.
Qed.

Lemma get_optimal_speed_monotone_witness :
  get_optimal_speed 12 <= get_optimal_speed 7.
Proof.
  apply (get_optimal_speed_monotone 7 12). discriminate.
Defined.

(** X3. The speed curve reaches zero exactly at grade 25: the speed is
    zero or negative exactly for grades of 25 and more, and zero only at
    25. *)
Theorem get_optimal_speed_zero_at_25 :
  forall g,
    (get_optimal_speed g <= 0 <-> 25 <= g) /\
    (get_optimal_speed g == 0 <-> g == 25).
Proof.
  intros g. rewrite get_optimal_speed_spec.
  unfold optimalSpeed_spec, segment.
  cmp_cases; slopes; repeat split; intros; lra.
Qed.

(** X4. The three ways in which [calculate_fuel_cost] ends, whatever the
    distance.  It raises OverflowError exactly when the clamped grade is a
    finite float whose square is out of range, and raises nothing else: the
    division is reached with a positive divisor only, so there is no
    ZeroDivisionError.  It returns infinity exactly when the clamped grade is
    25 or more without such a square, and a pair exactly when the clamped
    grade is below 25. *)
Theorem calculate_fuel_cost_outcomes :
  forall d g,
    (calculate_fuel_cost d g = Raise OverflowError <->
       square_overflows (Qmax g 0)) /\
    (forall e, calculate_fuel_cost d g = Raise e -> e = OverflowError) /\
    (calculate_fuel_cost d g = Return FloatInf <->
       25 <= Qmax g 0 /\ ~ square_overflows (Qmax g 0)) /\
    ((exists fuel speed,
        calculate_fuel_cost d g = Return (FuelSpeed fuel speed)) <->
       Qmax g 0 < 25).
Proof.
  intros d g.
  destruct (calculate_fuel_cost_total d g)
    as [[Hlt Hrun]|[(Hge & Hno & Hrun)|(Hge & Hov & Hrun)]]; rewrite Hrun.
  - assert (Hno : ~ square_overflows (Qmax g 0)).
    { apply small_square_in_range; [apply Q.le_max_r | exact Hlt]. }
    split; [split; [discriminate | contradiction]|].
    split; [discriminate|]. split.
    + split; [discriminate | intros [Hge _]; lra].
    + split; [intros _; exact Hlt | eauto].
  - split; [split; [discriminate | contradiction]|].
    split; [discriminate|]. split.
    + split; auto.
    + split; [intros (f & sp & Hfs); discriminate | lra].
  - split; [split; auto|].
    split; [now intros e [= <-]|]. split.
    + split; [discriminate | intros [_ Hno]; contradiction].
    + split; [intros (f & sp & Hfs); discriminate | lra].
Qed.

(** X5. The fuel figure grows with the distance and the speed does not
    depend on it: for a clamped grade below 25, a longer distance gives at
    least as much fuel at the same speed, and the distance 0 gives the fuel
    0. *)
Theorem calculate_fuel_cost_distance_monotone (d1 d2 g : Q) :
  d1 <= d2 ->
  Qmax g 0 < 25 ->
  exists fuel1 fuel2 fuel0 speed,
    calculate_fuel_cost d1 g = Return (FuelSpeed fuel1 speed) /\
    calculate_fuel_cost d2 g = Return (FuelSpeed fuel2 speed) /\
    calculate_fuel_cost 0 g = Return (FuelSpeed fuel0 speed) /\
    fuel1 <= fuel2 /\ fuel0 == 0.
Proof.
  intros H12 Hg. apply clamped_speed_pos in Hg.
  eexists _, _, _, _.
  split; [now apply calculate_fuel_cost_pair|].
  split; [now apply calculate_fuel_cost_pair|].
  split; [now apply calculate_fuel_cost_pair|].
  pose proof (fuel_burn_rate_pos _ (py_max_nonneg g)) as Hb.
  set (c := py_max g 0) in *. split.
  - assert (Ht : d1 / get_optimal_speed c <= d2 / get_optimal_speed c).
    { apply Qmult_le_compat_r; [exact H12|].
      apply Qlt_le_weak, Qinv_lt_0_compat, Hg. }
    nra.
  - field. lra.
Qed.

Lemma calculate_fuel_cost_distance_monotone_witness :
  exists fuel1 fuel2 fuel0 speed,
    calculate_fuel_cost 2 3 = Return (FuelSpeed fuel1 speed) /\
    calculate_fuel_cost 10 3 = Return (FuelSpeed fuel2 speed) /\
    calculate_fuel_cost 0 3 = Return (FuelSpeed fuel0 speed) /\
    fuel1 <= fuel2 /\ fuel0 == 0.
Proof.
  apply (calculate_fuel_cost_distance_monotone 2 10 3);
    [discriminate | reflexivity].
Defined.

(** X6. A steeper road never costs less: for a non-negative distance and
    clamped grades below 25, the larger clamped grade gives at least as much
    fuel and at most the speed. *)
Theorem calculate_fuel_cost_grade_monotone (d g1 g2 : Q) :
  0 <= d ->
  Qmax g1 0 <= Qmax g2 0 ->
  Qmax g2 0 < 25 ->
  exists fuel1 speed1 fuel2 speed2,
    calculate_fuel_cost d g1 = Return (FuelSpeed fuel1 speed1) /\
    calculate_fuel_cost d g2 = Return (FuelSpeed fuel2 speed2) /\
    fuel1 <= fuel2 /\ speed2 <= speed1.
Proof.
  intros Hd H12 H2.
  assert (H1 : Qmax g1 0 < 25) by lra.
  pose proof (proj2 (clamped_speed_pos g1) H1) as Hs1.
  pose proof (proj2 (clamped_speed_pos g2) H2) as Hs2.
  rewrite <- !py_max_clamp in H12.
  pose proof (py_max_nonneg g1) as Hn1.
  set (c1 := py_max g1 0) in *. set (c2 := py_max g2 0) in *.
  assert (Hspeed : get_optimal_speed c2 <= get_optimal_speed c1).
  { rewrite !get_optimal_speed_spec. unfold optimalSpeed_spec, segment.
    cmp_cases; slopes; lra. }
  assert (Hburn : fuel_burn_rate c1 <= fuel_burn_rate c2).
  { unfold fuel_burn_rate. simpl. nra. }
  exists (fuel_burn_rate c1 * (d / get_optimal_speed c1)),
         (get_optimal_speed c1),
         (fuel_burn_rate c2 * (d / get_optimal_speed c2)),
         (get_optimal_speed c2).
  split; [now apply calculate_fuel_cost_pair|].
  split; [now apply calculate_fuel_cost_pair|].
  split; [|exact Hspeed].
  pose proof (fuel_burn_rate_pos c1 Hn1) as Hb1.
  assert (Ht1 : (d / get_optimal_speed c1) * get_optimal_speed c1 == d)
    by (field; lra).
  assert (Ht2 : (d / get_optimal_speed c2) * get_optimal_speed c2 == d)
    by (field; lra).
  assert (Hp1 : 0 <= d / get_optimal_speed c1)
    by (apply Qle_shift_div_l; lra).
  assert (Hp2 : 0 <= d / get_optimal_speed c2)
    by (apply Qle_shift_div_l; lra).
  set (t1 := d / get_optimal_speed c1) in *.
  set (t2 := d / get_optimal_speed c2) in *.
  set (s1 := get_optimal_speed c1) in *.
  set (s2 := get_optimal_speed c2) in *.
  assert (Ht : t1 <= t2) by nra.
  nra.
Qed.

End CostModelShape.

(* ===================================================================== *)
(** ** Exceptions of the optimizer *)
(* ===================================================================== *)

Module DispatchErrors.
Import Physics PhysicsFacts Lp LpFacts Dispatch DispatchFacts DispatchClaims.
Import DispatchTerms.

(** *** Where an exception comes from *)

Lemma for_each_Raise_inv {A S} (body : S -> A -> result S) l e : forall st,
  for_each l body st = Raise e ->
  exists st' a, In a l /\ body st' a = Raise e.
Proof.
  induction l as [|a l IH]; intros st Hr; [discriminate|].
  simpl in Hr. destruct (body st a) as [st1|e1] eqn:E.
  - simpl in Hr. destruct (IH _ Hr) as (st' & a' & Ha' & Hb).
    exists st', a'. split; [now right | exact Hb].
  - simpl in Hr. injection Hr as ->. exists st, a. split; [now left | exact E].
Qed.

(** The body of the inner cost-matrix loop raises on offending pairs only:
    KeyError for a missing distance, OverflowError for a grade whose square
    is out of range, TypeError for any other degenerate grade. *)
Lemma cost_body_Raise_inv (t : truck) (s : shovel)
    (st : gmap route Q * gmap route Q) (e : exn) :
  (let '(costs, speed_log) := st in
   let* dist := getitem (distance_from_trucks s) (truck_id t) in
   let grade := grade_percent s in
   let* r := calculate_fuel_cost dist grade in
   let* (fuel_cost, opt_speed) := unpack r in
   Return (<[key t s := fuel_cost]> costs,
           <[key t s := opt_speed]> speed_log)) = Raise e ->
  (e = KeyError /\ missing_distance t s) \/
  (e = OverflowError /\ degenerate s /\
   square_overflows (Qmax (grade_percent s) 0)) \/
  (e = TypeError /\ degenerate s /\
   ~ square_overflows (Qmax (grade_percent s) 0)).
Proof.
  destruct st as [costs speed_log]. unfold getitem, missing_distance.
  destruct (distance_from_trucks s !! truck_id t) as [dist|];
    [|intros [= <-]; left; now split].
  cbn [bind]. unfold degenerate.
  destruct (calculate_fuel_cost_total dist (grade_percent s))
    as [[_ ->]|[(Hge & Hno & ->)|(Hge & Hov & ->)]]; cbn.
  - discriminate.
  - intros [= <-]. right. right. auto.
  - intros [= <-]. right. left. auto.
Qed.

Lemma cost_matrix_Raise_inv trucks shovels e :
  cost_matrix trucks shovels = Raise e ->
  exists t s, In t trucks /\ In s shovels /\
    ((e = KeyError /\ missing_distance t s) \/
     (e = OverflowError /\ degenerate s /\
      square_overflows (Qmax (grade_percent s) 0)) \/
     (e = TypeError /\ degenerate s /\
      ~ square_overflows (Qmax (grade_percent s) 0))).
Proof.
  unfold cost_matrix. intros Hr.
  apply for_each_Raise_inv in Hr as (st & t & Ht & Hr).
  apply for_each_Raise_inv in Hr as (st' & s & Hs & Hr).
  exists t, s. split; [exact Ht|]. split; [exact Hs|].
  apply (cost_body_Raise_inv t s st' e). destruct st'. exact Hr.
Qed.

(** *** The keys of the cost matrix *)

(** The keys of a dict filled by successive insertions. *)
Lemma fold_insert_is_Some {A} (k : A -> route) (g : A -> Q) l k' :
  forall m : gmap route Q,
    is_Some (fold_left (fun m b => <[k b := g b]> m) l m !! k') <->
    is_Some (m !! k') \/ exists b, In b l /\ k b = k'.
Proof.
  induction l as [|b l IH]; intros m; simpl.
  - split; [now left | intros [Hm|(b & [] & _)]; exact Hm].
  - rewrite IH. split.
    + intros [Hm|(b' & Hb' & Hk)].
      * destruct (decide (k b = k')) as [Heq|Hne].
        -- right. exists b. split; [now left | exact Heq].
        -- left. now rewrite lookup_insert_ne in Hm.
      * right. exists b'. split; [now right | exact Hk].
    + intros [Hm|(b' & [->|Hb'] & Hk)].
      * left. destruct (decide (k b = k')) as [Heq|Hne].
        -- rewrite Heq, lookup_insert_eq. eauto.
        -- now rewrite lookup_insert_ne.
      * left. rewrite Hk, lookup_insert_eq. eauto.
      * right. exists b'. now split.
Qed.

(** Once the cost matrix is built, both dicts have exactly the route keys. *)
Lemma cost_matrix_keys (trucks : list truck) (shovels : list shovel)
    (r : route) :
  let st := fold_left (record_truck shovels) trucks (∅, ∅) in
  (is_Some (st.1 !! r) <->
     exists t s, In t trucks /\ In s shovels /\ r = key t s) /\
  (is_Some (st.2 !! r) <->
     exists t s, In t trucks /\ In s shovels /\ r = key t s).
Proof.
  cbv zeta. rewrite record_truck_flat. cbn [fst snd].
  assert (Hex : (exists b : truck * shovel,
                   In b (pairs trucks shovels) /\ pair_key b = r) <->
                exists t s, In t trucks /\ In s shovels /\ r = key t s).
  { split.
    - intros ([t s] & Hin & Hk). apply In_pairs in Hin as [Ht Hs].
      exists t, s. split; [exact Ht|]. split; [exact Hs | now symmetry].
    - intros (t & s & Ht & Hs & ->). exists (t, s).
      split; [now apply In_pairs | reflexivity]. }
  split; rewrite fold_insert_is_Some, Hex; split; auto;
    intros [Hm|Hx]; auto; rewrite lookup_empty in Hm;
    destruct Hm as [? Hm]; discriminate.
Qed.

Lemma cost_matrix_raises_on_offending trucks shovels :
  (exists t s, In t trucks /\ In s shovels /\ offending t s) ->
  exists e, cost_matrix trucks shovels = Raise e.
Proof.
  intros (t & s & Ht & Hs & Ho). unfold cost_matrix.
  apply (for_each_raises _
           (fun t => exists s, In s shovels /\ offending t s)).
  - intros st t' _ (s' & Hs' & Ho').
    apply (for_each_raises _ (offending t')).
    + intros [costs speed_log] s0 _ Ho0. unfold getitem.
      destruct Ho0 as [Hm|Hd].
      * unfold missing_distance in Hm. rewrite Hm. now exists KeyError.
      * destruct (distance_from_trucks s0 !! truck_id t') as [dist|];
          [|now exists KeyError].
        cbn [bind]. unfold degenerate in Hd.
        destruct (calculate_fuel_cost_total dist (grade_percent s0))
          as [[Hlt _]|[(_ & _ & ->)|(_ & _ & ->)]]; [lra| |].
        -- now exists TypeError.
        -- now exists OverflowError.
    + apply List.Exists_exists. now exists s'.
  - apply List.Exists_exists. exists t. split; [exact Ht|]. now exists s.
Qed.

Section AnySolver.
Context `{Solver}.

(** X7. The cost-matrix loop raises exactly when some truck-shovel pair has
    no distance on record or a degenerate grade (clamped grade of 25 or
    more).  The exception is KeyError for a missing distance, OverflowError
    for a grade whose square is out of the range of the floats and TypeError
    for any other degenerate grade, and the call ends with that exception,
    before the solver is called. *)
Theorem cost_matrix_raises_iff :
  forall trucks shovels,
    ((exists e, cost_matrix trucks shovels = Raise e) <->
     (exists t s, In t trucks /\ In s shovels /\ offending t s)) /\
    (forall e, cost_matrix trucks shovels = Raise e ->
       opt_fleet_dispatch trucks shovels = Raise e /\
       ((e = KeyError /\
         exists t s, In t trucks /\ In s shovels /\ missing_distance t s) \/
        (e = OverflowError /\
         exists t s, In t trucks /\ In s shovels /\ degenerate s /\
           square_overflows (Qmax (grade_percent s) 0)) \/
        (e = TypeError /\
         exists t s, In t trucks /\ In s shovels /\ degenerate s /\
           ~ square_overflows (Qmax (grade_percent s) 0)))).
Proof.
  intros trucks shovels. split; [split|].
  - intros [e Hr].
    apply cost_matrix_Raise_inv in Hr as (t & s & Ht & Hs & Hcase).
    exists t, s. split; [exact Ht|]. split; [exact Hs|].
    destruct Hcase as [[_ Hm]|[(_ & Hd & _)|(_ & Hd & _)]];
      [now left | now right | now right].
  - apply cost_matrix_raises_on_offending.
  - intros e Hcm. split.
    + unfold opt_fleet_dispatch. now rewrite Hcm.
    + apply cost_matrix_Raise_inv in Hcm as (t & s & Ht & Hs & Hcase).
      destruct Hcase as [[-> Hm]|[(-> & Hd & Hov)|(-> & Hd & Hno)]];
        [left|right; left|right; right];
        (split; [reflexivity|]); exists t, s; auto.
Qed.

(** X8. A distance missing for some truck-shovel pair, on roads none of
    which is degenerate, ends the call with KeyError: nothing is printed
    and no assignment is made for the other trucks either. *)
Theorem opt_fleet_dispatch_missing_distance trucks shovels t s :
  In t trucks -> In s shovels -> missing_distance t s ->
  (forall s', In s' shovels -> Qmax (grade_percent s') 0 < 25) ->
  opt_fleet_dispatch trucks shovels = Raise KeyError.
Proof.
  intros Ht Hs Hm Hpos.
  assert (Hoff : exists t s,
            In t trucks /\ In s shovels /\ offending t s).
  { exists t, s. split; [exact Ht|]. split; [exact Hs | now left]. }
  destruct (cost_matrix_raises_on_offending _ _ Hoff) as [e He].
  unfold opt_fleet_dispatch. rewrite He. cbn. f_equal.
  apply cost_matrix_Raise_inv in He as (t' & s' & _ & Hs' & Hcase).
  destruct Hcase as [[-> _]|[(_ & Hd & _)|(_ & Hd & _)]]; [reflexivity| |];
    exfalso; specialize (Hpos s' Hs'); unfold degenerate in Hd; lra.
Qed.

End AnySolver.

End DispatchErrors.

Module DispatchErrorsWitness.
Import Physics Lp LpFacts Dispatch DispatchTerms DispatchErrors.

Lemma opt_fleet_dispatch_missing_distance_witness :
  @opt_fleet_dispatch exhaustive [ {| truck_id := "Truck_4" |} ]
    (shovel_data 2 2 0 0) = Raise KeyError.
Proof.
  apply (@opt_fleet_dispatch_missing_distance exhaustive
           [ {| truck_id := "Truck_4" |} ] (shovel_data 2 2 0 0)
           {| truck_id := "Truck_4" |} (Shovel_A 2 0)).
  - left. reflexivity.
  - left. reflexivity.
  - reflexivity.
  - intros s' [<-|[<-|[]]]; reflexivity.
Defined.

End DispatchErrorsWitness.

(* ===================================================================== *)
(** ** What the optimizer guarantees *)
(* ===================================================================== *)

Module DispatchGuarantees.
Import Physics PhysicsFacts Lp LpFacts Dispatch DispatchFacts DispatchClaims.
Import DispatchTerms DispatchErrors.





(** X13. On well-formed input with every clamped grade below 25 the cost
    matrix is built, and the two dicts hold, under each key
    [(truck id, shovel id)], exactly the fuel and the speed that
    [calculate_fuel_cost] returns for that shovel's recorded distance and
    grade; they hold no other key. *)
Theorem cost_matrix_holds_the_figures trucks shovels :
  well_formed trucks shovels ->
  speeds_positive shovels ->
  exists costs speed_log : gmap route Q,
    cost_matrix trucks shovels = Return (costs, speed_log) /\
    (forall t s, In t trucks -> In s shovels ->
       exists dist fuel speed,
         distance_from_trucks s !! truck_id t = Some dist /\
         calculate_fuel_cost dist (grade_percent s)
           = Return (FuelSpeed fuel speed) /\
         costs !! key t s = Some fuel /\
         speed_log !! key t s = Some speed) /\
    (forall r, is_Some (costs !! r) \/ is_Some (speed_log !! r) ->
       exists t s, In t trucks /\ In s shovels /\ r = key t s).
Proof.
  intros Hwf Hpos.
  destruct (cost_matrix_lookup trucks shovels Hwf Hpos)
    as (costs & speed_log & Hcm & Hlook).
  exists costs, speed_log. split; [exact Hcm|]. split.
  - intros t s Ht Hs. destruct Hwf as [_ Hdist].
    destruct (route_figures_Some t s (Hdist t s Ht Hs) (Hpos s Hs))
      as (dist & Hd & Hc).
    destruct (Hlook t s Ht Hs) as [Hcost Hspd].
    exists dist, (route_fuel t s), (route_speed t s). auto.
  - intros r Hr.
    rewrite (cost_matrix_pure _ _ Hwf Hpos) in Hcm. injection Hcm as Hst.
    pose proof (cost_matrix_keys trucks shovels r) as [Hk1 Hk2].
    cbv zeta in Hk1, Hk2. rewrite Hst in Hk1, Hk2. cbn [fst snd] in Hk1, Hk2.
    destruct Hr as [Hr|Hr]; [now apply Hk1 | now apply Hk2].
Qed.



Section AnySolver.
Context `{Solver}.




(** X11. Pigeonhole: on well-formed input with every clamped grade below
    25, variables of different names and finite costs, queue limits that sum
    to less than the number of trucks give the no-solution message under a
    status other than Optimal, never a table. *)
Theorem opt_fleet_dispatch_capacity_shortage trucks shovels :
  well_formed trucks shovels ->
  speeds_positive shovels ->
  names_distinct trucks shovels ->
  costs_finite trucks shovels ->
  (total_capacity shovels < Z.of_nat (length trucks))%Z ->
  exists status,
    opt_fleet_dispatch trucks shovels = Return (PrintedNoOptimal status) /\
    status <> LpStatusOptimal.
Proof.
  intros Hwf Hpos Hnames _ Hshort.
  now apply opt_fleet_dispatch_infeasible.
Qed.

(** X12. With no trucks the call never looks at a grade or a distance, and
    the objective has no term.  When no queue limit is negative the program
    is feasible: the status line says Optimal, the value of the objective is
    [None], and formatting it as the projected fuel raises TypeError; no
    table is printed.  When a queue limit is negative the call prints the
    no-solution message. *)
Theorem opt_fleet_dispatch_no_trucks :
  forall shovels,
    (Forall (fun s => (0 <= max_queue s)%Z) shovels ->
     (solve (the_problem [] shovels)).1 = LpStatusOptimal /\
     opt_fleet_dispatch [] shovels = Raise TypeError) /\
    (Exists (fun s => (max_queue s < 0)%Z) shovels ->
     exists status,
       opt_fleet_dispatch [] shovels = Return (PrintedNoOptimal status) /\
       status <> LpStatusOptimal).
Proof.
  intros shovels.
  assert (Hfeas : forall v,
            feasible v (the_problem [] shovels) <->
            Forall (fun s => (0 <= max_queue s)%Z) shovels).
  { intros v. rewrite feasible_the_problem, List.Forall_forall. split.
    - intros [_ HB] s Hs. exact (HB s Hs).
    - intros HB. split; [intros t []|]. intros s Hs. exact (HB s Hs). }
  assert (Hrun : opt_fleet_dispatch [] shovels =
            let '(status, x_value) := solve (the_problem [] shovels) in
            if LpStatus_eqb status LpStatusOptimal
            then Raise TypeError
            else Return (PrintedNoOptimal status)).
  { unfold opt_fleet_dispatch. cbn.
    change {| objective := []; constraints := map (constraint_B []) shovels |}
      with (the_problem [] shovels).
    destruct (solve _) as [status x_value].
    now destruct (LpStatus_eqb status LpStatusOptimal). }
  rewrite Hrun. split.
  - intros Hcaps.
    pose proof (solve_complete (the_problem [] shovels) (fun _ => false)
                  (proj2 (Hfeas _) Hcaps)) as Hst.
    split; [exact Hst|].
    destruct (solve _) as [status v]. simpl in Hst. now subst status.
  - intros Hneg.
    destruct (solve (the_problem [] shovels)) as [status v] eqn:Hsolve.
    exists status.
    destruct (LpStatus_eqb status LpStatusOptimal) eqn:E;
      [|split; [reflexivity | intros ->; discriminate E]].
    exfalso. apply LpStatus_eqb_eq in E. subst status.
    destruct (solve_sound _ _ Hsolve) as [Hv _].
    apply Hfeas in Hv. rewrite List.Forall_forall in Hv.
    apply List.Exists_exists in Hneg as (s & Hs & Hlt).
    specialize (Hv s Hs). lia.
Qed.

End AnySolver.

End DispatchGuarantees.

(* ===================================================================== *)
(** ** Facts about the console *)
(* ===================================================================== *)

Module ConsoleFacts.
Import Physics PhysicsFacts Lp LpFacts Dispatch DispatchFacts DispatchClaims.
Import DispatchTerms Console.

Lemma truediv_pos a b : 0 < b -> truediv a b = Return (a / b).
Proof.
  intros Hb. unfold truediv.
  destruct (Qeq_bool b 0) eqn:E; [|reflexivity].
  apply Qeq_bool_iff in E. lra.
Qed.

(** The first acceptable pair of numbers gives the grade. *)
Lemma grade_loop_accepts_pair rise run rest printed :
  0 < run ->
  grade_loop (Number rise :: Number run :: rest) printed
  = Done (rise / run * 100) rest
      (printed ++ [CalculatedGrade (rise / run * 100)]).
Proof.
  intros Hrun. cbn [grade_loop parse float_le_0 float_grade].
  assert (E : Qle_bool run 0 = false) by (apply Qle_bool_false; exact Hrun).
  now rewrite E, (truediv_pos _ _ Hrun).
Qed.

(** Refused attempts are skipped, each with one error message. *)
Lemma grade_loop_skips skipped :
  refused skipped ->
  forall inputs printed,
  exists errors,
    grade_loop (skipped ++ inputs) printed
    = grade_loop inputs (printed ++ errors) /\
    Forall is_error errors.
Proof.
  assert (Hstep : forall (m : message) (printed : list message)
                    (P : list message -> Prop),
            is_error m ->
            (exists errors,
               P ((printed ++ [m]) ++ errors) /\ Forall is_error errors) ->
            exists errors, P (printed ++ errors) /\ Forall is_error errors).
  { intros m printed P Hm (errors & HP & Herr).
    exists (m :: errors). split.
    - now rewrite <- app_assoc in HP.
    - now constructor. }
  induction 1 as [|skipped _ IH|rise0 skipped _ IH
                  |rise0 run0 skipped Hle _ IH
                  |v skipped _ IH|v run0 skipped Hle _ IH
                  |rise0 skipped Hne _ IH]; intros inputs printed.
  - exists []. split; [now rewrite app_nil_r | constructor].
  - cbn [app grade_loop parse].
    apply (Hstep InvalidInput printed
             (fun out => _ = grade_loop inputs out)); [now left|].
    destruct (IH inputs (printed ++ [InvalidInput])) as (errors & -> & Herr).
    now exists errors.
  - cbn [app grade_loop parse].
    apply (Hstep InvalidInput printed
             (fun out => _ = grade_loop inputs out)); [now left|].
    destruct (IH inputs (printed ++ [InvalidInput])) as (errors & -> & Herr).
    now exists errors.
  - cbn [app grade_loop parse float_le_0].
    apply Qle_bool_iff in Hle. rewrite Hle.
    apply (Hstep DistanceMustBePositive printed
             (fun out => _ = grade_loop inputs out)); [now right|].
    destruct (IH inputs (printed ++ [DistanceMustBePositive]))
      as (errors & -> & Herr).
    now exists errors.
  - cbn [app grade_loop parse].
    apply (Hstep InvalidInput printed
             (fun out => _ = grade_loop inputs out)); [now left|].
    destruct (IH inputs (printed ++ [InvalidInput])) as (errors & -> & Herr).
    now exists errors.
  - cbn [app grade_loop parse float_le_0].
    apply Qle_bool_iff in Hle. rewrite Hle.
    apply (Hstep DistanceMustBePositive printed
             (fun out => _ = grade_loop inputs out)); [now right|].
    destruct (IH inputs (printed ++ [DistanceMustBePositive]))
      as (errors & -> & Herr).
    now exists errors.
  - destruct rise0 as [x|v|]; [| |contradiction];
      cbn [app grade_loop parse float_le_0];
      apply (Hstep DistanceMustBePositive printed
               (fun out => _ = grade_loop inputs out)); try (now right);
      destruct (IH inputs (printed ++ [DistanceMustBePositive]))
        as (errors & -> & Herr);
      now exists errors.
Qed.

Lemma grade_loop_accepts skipped rise run rest :
  refused skipped -> 0 < run ->
  forall printed,
  exists errors,
    grade_loop (skipped ++ Number rise :: Number run :: rest) printed
    = Done (rise / run * 100) rest
        (printed ++ errors ++ [CalculatedGrade (rise / run * 100)]) /\
    Forall is_error errors.
Proof.
  intros Href Hrun printed.
  destruct (grade_loop_skips skipped Href
              (Number rise :: Number run :: rest) printed)
    as (errors & -> & Herr).
  exists errors. split; [|exact Herr].
  rewrite (grade_loop_accepts_pair _ _ _ _ Hrun). now rewrite <- app_assoc.
Qed.

Lemma get_user_grade_input_retries_aux location_id skipped rise run rest :
  refused skipped -> 0 < run ->
  exists errors,
    get_user_grade_input location_id
      (skipped ++ Number rise :: Number run :: rest)
    = Done (rise / run * 100) rest
        (ConfigureRoad location_id :: errors
         ++ [CalculatedGrade (rise / run * 100)]) /\
    Forall is_error errors.
Proof.
  intros Href Hrun. unfold get_user_grade_input.
  destruct (grade_loop_accepts skipped rise run rest Href Hrun
              [ConfigureRoad location_id]) as (errors & Hloop & Herr).
  exists errors. split; [exact Hloop | exact Herr].
Qed.




Lemma grade_loop_attempts attempts :
  Forall attempt_refused attempts ->
  forall inputs printed,
    grade_loop (flat_map attempt_lines attempts ++ inputs) printed
    = grade_loop inputs (printed ++ map attempt_message attempts).
Proof.
  induction 1 as [|a attempts Ha _ IH]; intros inputs printed.
  - cbn. now rewrite app_nil_r.
  - cbn [flat_map map]. rewrite <- app_assoc.
    destruct a as [|rise|rise run];
      cbn [attempt_lines attempt_message app grade_loop parse float_le_0].
    + rewrite IH. now rewrite <- app_assoc.
    + rewrite IH. now rewrite <- app_assoc.
    + cbn in Ha. apply Qle_bool_iff in Ha. rewrite Ha, IH.
      now rewrite <- app_assoc.
Qed.

(** X16. Refused attempts do not disturb the result: after any number of
    them, the first rise with a positive run gives the grade
    [rise / run * 100], leaves the following lines unread, and what was
    printed is the header, then for each refused attempt, in order, its one
    error message (invalid input for a rise or a run that is not a number,
    distance must be positive for a run that is not), then the calculated
    grade. *)
Theorem get_user_grade_input_retries location_id attempts rise run rest :
  Forall attempt_refused attempts -> 0 < run ->
  get_user_grade_input location_id
    (flat_map attempt_lines attempts ++ Number rise :: Number run :: rest)
  = Done (rise / run * 100) rest
      (ConfigureRoad location_id :: map attempt_message attempts
       ++ [CalculatedGrade (rise / run * 100)]).
Proof.
  intros Hatt Hrun. unfold get_user_grade_input.
  rewrite (grade_loop_attempts attempts Hatt).
  now rewrite (grade_loop_accepts_pair _ _ _ _ Hrun).
Qed.

Lemma get_user_grade_input_retries_witness :
  get_user_grade_input "Shovel_A"
    (flat_map attempt_lines [BadRise; BadRun 3; BadDistance 3 0]
     ++ Number 5 :: Number 100 :: [Number 7])
  = Done (5 / 100 * 100) [Number 7]
      (ConfigureRoad "Shovel_A"
       :: map attempt_message [BadRise; BadRun 3; BadDistance 3 0]
       ++ [CalculatedGrade (5 / 100 * 100)]).
Proof.
  apply (get_user_grade_input_retries "Shovel_A"
           [BadRise; BadRun 3; BadDistance 3 0] 5 100 [Number 7]).
  - repeat constructor. discriminate.
  - reflexivity.
Defined.

(** *** The script *)

Lemma grade_below_25 rise run :
  0 < run -> (Qmax (rise / run * 100) 0 < 25 <-> 4 * rise < run).
Proof.
  intros Hrun. rewrite Q.max_lub_lt_iff.
  assert (Ht : rise / run * run == rise) by (field; lra).
  set (t := rise / run) in *. split.
  - intros [Hlt _]. nra.
  - intros Hlt. split; [nra | reflexivity].
Qed.

Lemma plan_valid grade_A grade_B :
  valid_assignment truck_fleet (shovel_data 2 2 grade_A grade_B)
    (plan grade_A grade_B).
Proof.
  split.
  - intros t [<-|[<-|[<-|[]]]]; cbn; auto.
  - intros s [<-|[<-|[]]]; cbn; lia.
Qed.

Lemma configure_simulation pre_A rise_A run_A pre_B rise_B run_B rest :
  refused pre_A -> 0 < run_A -> refused pre_B -> 0 < run_B ->
  exists printed,
    configure (shovel_data 2 2 0 0)
      (pre_A ++ Number rise_A :: Number run_A
       :: pre_B ++ Number rise_B :: Number run_B :: rest) []
    = Done (shovel_data 2 2 (rise_A / run_A * 100) (rise_B / run_B * 100))
        rest printed.
Proof.
  intros HpA HrA HpB HrB. unfold shovel_data.
  cbn [configure Shovel_A Shovel_B shovel_id].
  destruct (get_user_grade_input_retries_aux "Shovel_A" pre_A rise_A run_A
              (pre_B ++ Number rise_B :: Number run_B :: rest) HpA HrA)
    as (errA & -> & _).
  destruct (get_user_grade_input_retries_aux "Shovel_B" pre_B rise_B run_B
              rest HpB HrB) as (errB & -> & _).
  eexists. reflexivity.
Qed.


Section AnySolver.
Context `{Solver}.

(** X17. The script, fed two accepted entries (each possibly after refused
    attempts) whose rise is less than a quarter of the run, prints status
    Optimal and a table with one row for each of the three trucks, each
    naming Shovel_A or Shovel_B, at a total no larger than the cost of
    sending Truck_2 to Shovel_B and the others to Shovel_A; the lines after
    the second entry are left unread. *)
Theorem main_prints_a_plan pre_A rise_A run_A pre_B rise_B run_B rest :
  refused pre_A -> 0 < run_A -> refused pre_B -> 0 < run_B ->
  4 * rise_A < run_A -> 4 * rise_B < run_B ->
  exists total table printed,
    main (pre_A ++ Number rise_A :: Number run_A
          :: pre_B ++ Number rise_B :: Number run_B :: rest)
    = Done (PrintedOptimal total table) rest printed /\
    map row_truck table = ["Truck_1"; "Truck_2"; "Truck_3"]%string /\
    (forall r, In r table ->
       row_destination r = "Shovel_A"%string \/
       row_destination r = "Shovel_B"%string) /\
    total <= assignment_cost truck_fleet
               (plan (rise_A / run_A * 100) (rise_B / run_B * 100)).
Proof.
  intros HpA HrA HpB HrB HgA HgB.
  destruct (configure_simulation pre_A rise_A run_A pre_B rise_B run_B rest
              HpA HrA HpB HrB) as [printed Hconf].
  set (gA := rise_A / run_A * 100) in *. set (gB := rise_B / run_B * 100) in *.
  assert (HposA : Qmax gA 0 < 25) by now apply grade_below_25.
  assert (Hpos : speeds_positive (shovel_data 2 2 gA gB)).
  { intros s [<-|[<-|[]]]; cbn [grade_percent Shovel_A Shovel_B];
      now apply grade_below_25. }
  destruct (opt_fleet_dispatch_optimal truck_fleet (shovel_data 2 2 gA gB)
              (simulation_well_formed 2 2 gA gB) Hpos
              (simulation_names_distinct 2 2 gA gB)
              (simulation_some_cost 2 2 gA gB HposA)
              (ex_intro _ (plan gA gB) (plan_valid gA gB)))
    as (total & f & Hrun & [Hin _] & _ & Hmin).
  exists total, (map (fun t => row_of t (f t)) truck_fleet), printed.
  split; [unfold main; now rewrite Hconf, Hrun|].
  split; [reflexivity|]. split; [|apply Hmin, plan_valid].
  intros r Hr. apply in_map_iff in Hr as (t & <- & Ht).
  destruct (Hin t Ht) as [<-|[<-|[]]]; [now left | now right].
Qed.


End AnySolver.

Lemma main_prints_a_plan_witness :
  exists total table printed,
    @main exhaustive
      ([NotANumber] ++ Number 5 :: Number 100
       :: [Number 1; Number 0] ++ Number 10 :: Number 100 :: [])
    = Done (PrintedOptimal total table) [] printed /\
    map row_truck table = ["Truck_1"; "Truck_2"; "Truck_3"]%string /\
    (forall r, In r table ->
       row_destination r = "Shovel_A"%string \/
       row_destination r = "Shovel_B"%string) /\
    total <= assignment_cost truck_fleet
               (plan (5 / 100 * 100) (10 / 100 * 100)).
Proof.
  apply (@main_prints_a_plan exhaustive [NotANumber] 5 100
           [Number 1; Number 0] 10 100 []).
  - apply refused_rise, refused_nil.
  - reflexivity.
  - apply refused_distance; [discriminate | apply refused_nil].
  - reflexivity.
  - reflexivity.
  - reflexivity.
Defined.


End ConsoleFacts.

(* ===================================================================== *)
(** ** FuelOpt.py against the cost model *)
(* ===================================================================== *)

Module FuelOptFacts.
Import Physics PhysicsFacts FuelOpt.


Lemma truediv_nonzero a b : ~ b == 0 -> truediv a b = Return (a / b).
Proof.
  intros Hb. unfold truediv. destruct (Qeq_bool b 0) eqn:E; [|reflexivity].
  apply Qeq_bool_iff in E. contradiction.
Qed.


(** X20. A road that does not climb is charged as flat: when
    [rise / run * 100 <= 0] the burn rate is 180 litres per hour and the
    total is 180 times the hours. *)
Theorem fuel_estimate_downhill (rise run hours : Q) :
  ~ run == 0 -> rise / run * 100 <= 0 ->
  exists est,
    fuel_estimate rise run hours = Return est /\
    Fuel_Burn est == 180 /\ Total_Fuel est == 180 * hours.
Proof.
  intros Hnz Hdown. unfold fuel_estimate.
  rewrite (truediv_nonzero _ _ Hnz). cbn [bind].
  assert (Hm : py_max (rise / run * 100) 0 == 0).
  { rewrite py_max_clamp. apply Q.max_r. exact Hdown. }
  assert (Hno : ~ square_overflows (py_max (rise / run * 100) 0)).
  { rewrite (square_overflows_compat _ 0 Hm).
    apply small_square_in_range; [apply Qle_refl | reflexivity]. }
  rewrite (float_pow_returns _ Hno). cbn [bind].
  eexists. split; [reflexivity|]. cbn [Fuel_Burn Total_Fuel].
  rewrite Hm. split; [reflexivity|]. ring.
Qed.

Lemma fuel_estimate_downhill_witness :
  exists est,
    fuel_estimate (-3) 100 2 = Return est /\
    Fuel_Burn est == 180 /\ Total_Fuel est == 180 * 2.
Proof.
  apply (fuel_estimate_downhill (-3) 100 2); discriminate.
Defined.

(** X21. The two files charge the same: for a road of given rise and run
    whose clamped grade is below 25, the fuel that [calculate_fuel_cost]
    returns for a distance is the total of the single-road estimate for the
    same rise and run over the travel time, distance divided by the optimal
    speed. *)
Theorem calculate_fuel_cost_is_estimate (d rise run : Q) :
  ~ run == 0 ->
  Qmax (rise / run * 100) 0 < 25 ->
  exists fuel speed est,
    calculate_fuel_cost d (rise / run * 100)
      = Return (FuelSpeed fuel speed) /\
    fuel_estimate rise run (d / speed) = Return est /\
    Total_Fuel est = fuel /\
    Fuel_Burn est = fuel_burn_rate (py_max (Grade est) 0).
Proof.
  intros Hnz Hg.
  assert (Hno : ~ square_overflows (py_max (rise / run * 100) 0)).
  { rewrite clamped_square_overflows.
    apply small_square_in_range; [apply Q.le_max_r | exact Hg]. }
  apply clamped_speed_pos in Hg.
  eexists _, _, _. split; [now apply calculate_fuel_cost_pair|].
  unfold fuel_estimate. rewrite (truediv_nonzero _ _ Hnz). cbn [bind].
  rewrite (float_pow_returns _ Hno). cbn [bind].
  split; [reflexivity|]. split; reflexivity.
Qed.

Lemma calculate_fuel_cost_is_estimate_witness :
  exists fuel speed est,
    calculate_fuel_cost 2 (3 / 100 * 100)
      = Return (FuelSpeed fuel speed) /\
    fuel_estimate 3 100 (2 / speed) = Return est /\
    Total_Fuel est = fuel /\
    Fuel_Burn est = fuel_burn_rate (py_max (Grade est) 0).
Proof.
  apply (calculate_fuel_cost_is_estimate 2 3 100); [discriminate|reflexivity].
Defined.

End FuelOptFacts.

Module ExtraWitnesses.
Import Physics PhysicsFacts Lp LpFacts Dispatch DispatchFacts DispatchClaims.
Import DispatchTerms DispatchErrors DispatchGuarantees CostModelShape.

Lemma calculate_fuel_cost_grade_monotone_witness :
  exists fuel1 speed1 fuel2 speed2,
    calculate_fuel_cost 2 3 = Return (FuelSpeed fuel1 speed1) /\
    calculate_fuel_cost 2 12 = Return (FuelSpeed fuel2 speed2) /\
    fuel1 <= fuel2 /\ speed2 <= speed1.
Proof.
  apply (calculate_fuel_cost_grade_monotone 2 3 12);
    [discriminate | discriminate | reflexivity].
Defined.


Lemma flat_costs_finite qa qb :
  costs_finite truck_fleet (shovel_data qa qb 0 0).
Proof.
  intros t s [<-|[<-|[<-|[]]]] [<-|[<-|[]]]; vm_compute; reflexivity.
Qed.




Lemma opt_fleet_dispatch_capacity_shortage_witness :
  exists status,
    @opt_fleet_dispatch exhaustive truck_fleet (shovel_data 1 1 0 0)
      = Return (PrintedNoOptimal status) /\
    status <> LpStatusOptimal.
Proof.
  apply (@opt_fleet_dispatch_capacity_shortage exhaustive
           truck_fleet (shovel_data 1 1 0 0)).
  - apply simulation_well_formed.
  - apply flat_speeds_positive.
  - apply simulation_names_distinct.
  - apply flat_costs_finite.
  - reflexivity.
Defined.

Lemma cost_matrix_holds_the_figures_witness :
  exists costs speed_log : gmap route Q,
    cost_matrix truck_fleet (shovel_data 2 2 0 0)
      = Return (costs, speed_log) /\
    (forall t s, In t truck_fleet -> In s (shovel_data 2 2 0 0) ->
       exists dist fuel speed,
         distance_from_trucks s !! truck_id t = Some dist /\
         calculate_fuel_cost dist (grade_percent s)
           = Return (FuelSpeed fuel speed) /\
         costs !! key t s = Some fuel /\
         speed_log !! key t s = Some speed) /\
    (forall r, is_Some (costs !! r) \/ is_Some (speed_log !! r) ->
       exists t s, In t truck_fleet /\ In s (shovel_data 2 2 0 0) /\
                   r = key t s).
Proof.
  apply (cost_matrix_holds_the_figures truck_fleet (shovel_data 2 2 0 0)).
  - apply simulation_well_formed.
  - apply flat_speeds_positive.
Defined.


End ExtraWitnesses.

(* ===================================================================== *)
(** ** Ample queues and the end of input *)
(* ===================================================================== *)

Module AmpleQueues.
Import Physics PhysicsFacts Lp LpFacts Dispatch DispatchFacts DispatchClaims.
Import DispatchTerms.


Section AnySolver.
Context `{Solver}.


End AnySolver.


End AmpleQueues.

Module ConsoleEnd.
Import Physics Lp LpFacts Dispatch DispatchClaims DispatchTerms Console ConsoleFacts.

(** Refused attempts alone, or followed by a lone rise, exhaust the input. *)
Lemma grade_loop_runs_out skipped :
  refused skipped ->
  forall printed,
    (exists out, grade_loop skipped printed = EOFError out) /\
    (forall rise,
       exists out, grade_loop (skipped ++ [Number rise]) printed
                   = EOFError out).
Proof.
  intros Href printed. split.
  - destruct (grade_loop_skips skipped Href [] printed) as (errors & Hgo & _).
    rewrite app_nil_r in Hgo. rewrite Hgo. cbn. eauto.
  - intros rise.
    destruct (grade_loop_skips skipped Href [Number rise] printed)
      as (errors & -> & _).
    cbn. eauto.
Qed.

Section AnySolver.
Context `{Solver}.

(** X23. Input that runs out during the entries ends the script with
    EOFError before the optimizer is called: this happens when the lines are
    refused attempts only, possibly ending in a lone rise, whether for the
    first shovel or, after an accepted first entry, for the second. *)
Theorem main_runs_out_of_input :
  forall skipped,
    refused skipped ->
    (exists out, main skipped = EOFError out) /\
    (forall rise, exists out, main (skipped ++ [Number rise]) = EOFError out) /\
    (forall pre rise run,
       refused pre -> 0 < run ->
       (exists out,
          main (pre ++ Number rise :: Number run :: skipped)
          = EOFError out) /\
       (forall rise', exists out,
          main (pre ++ Number rise :: Number run
                :: skipped ++ [Number rise'])
          = EOFError out)).
Proof.
  intros skipped Href.
  assert (Hfirst : forall inputs,
            (exists out, get_user_grade_input "Shovel_A" inputs
                         = EOFError out) ->
            exists out, main inputs = EOFError out).
  { intros inputs [out Hout]. unfold main, shovel_data.
    cbn [configure Shovel_A Shovel_B shovel_id]. rewrite Hout. eauto. }
  assert (Hsecond : forall pre rise run inputs,
            refused pre -> 0 < run ->
            (exists out, get_user_grade_input "Shovel_B" inputs
                         = EOFError out) ->
            exists out,
              main (pre ++ Number rise :: Number run :: inputs)
              = EOFError out).
  { intros pre rise run inputs Hpre Hrun [out Hout]. unfold main, shovel_data.
    cbn [configure Shovel_A Shovel_B shovel_id].
    destruct (get_user_grade_input_retries_aux "Shovel_A" pre rise run
                inputs Hpre Hrun) as (errors & -> & _).
    rewrite Hout. eauto. }
  split; [|split].
  - apply Hfirst. apply (grade_loop_runs_out skipped Href).
  - intros rise. apply Hfirst. apply (grade_loop_runs_out skipped Href).
  - intros pre rise run Hpre Hrun. split.
    + apply Hsecond; auto. apply (grade_loop_runs_out skipped Href).
    + intros rise'. apply Hsecond; auto.
      apply (grade_loop_runs_out skipped Href).
Qed.

End AnySolver.

Lemma main_runs_out_of_input_witness :
  (exists out, @main exhaustive [NotANumber; Number 1; Number 0]
               = EOFError out) /\
  (forall rise, exists out,
     @main exhaustive ([NotANumber; Number 1; Number 0] ++ [Number rise])
     = EOFError out) /\
  (forall pre rise run,
     refused pre -> 0 < run ->
     (exists out,
        @main exhaustive
          (pre ++ Number rise :: Number run
           :: [NotANumber; Number 1; Number 0])
        = EOFError out) /\
     (forall rise', exists out,
        @main exhaustive
          (pre ++ Number rise :: Number run
           :: [NotANumber; Number 1; Number 0] ++ [Number rise'])
        = EOFError out)).
Proof.
  apply (@main_runs_out_of_input exhaustive [NotANumber; Number 1; Number 0]).
  apply refused_rise, refused_distance; [discriminate | apply refused_nil].
Defined.

End ConsoleEnd.

(* ===================================================================== *)
(** ** Shovels that share an id *)
(* ===================================================================== *)

Module SharedIds.
Import Physics PhysicsFacts Lp LpFacts Dispatch DispatchFacts DispatchClaims.
Import DispatchTerms.

Lemma for_each_invariant {A S} (P : S -> Prop)
    (body : S -> A -> result S) l :
  (forall st a st', In a l -> P st -> body st a = Return st' -> P st') ->
  forall st st', P st -> for_each l body st = Return st' -> P st'.
Proof.
  induction l as [|a l IH]; intros Hb st st' HP Hr.
  - injection Hr as <-. exact HP.
  - simpl in Hr. destruct (body st a) as [st1|e] eqn:E; [|discriminate].
    simpl in Hr. apply (IH (fun st0 a0 st0' Ha0 => Hb st0 a0 st0' (or_intror Ha0))
                           st1 st'); [|exact Hr].
    apply (Hb st a st1); auto. now left.
Qed.

(** Every printed row comes from a variable set to 1. *)
Lemma print_table_rows (trucks : list truck) (shovels : list shovel)
    (x_value : route -> bool) (costs speed_log : gmap route Q)
    (table : list table_row) :
  print_table trucks shovels x_value costs speed_log = Return table ->
  forall r, In r table ->
    exists t s, In t trucks /\ In s shovels /\
      x_value (key t s) = true /\
      row_truck r = truck_id t /\ row_destination r = shovel_id s.
Proof.
  unfold print_table.
  set (P := fun rows : list table_row =>
              forall r, In r rows ->
                exists t s, In t trucks /\ In s shovels /\
                  x_value (key t s) = true /\
                  row_truck r = truck_id t /\
                  row_destination r = shovel_id s).
  intros Hr. apply (for_each_invariant P _ trucks) with (st := []) in Hr.
  - exact Hr.
  - intros rows t rows' Ht HP Hin.
    apply (for_each_invariant P _ shovels) with (st := rows) in Hin;
      [exact Hin| |exact HP].
    intros rows0 s rows0' Hs HP0 Hbody.
    rewrite Qeq_bool_var_value in Hbody.
    destruct (x_value (key t s)) eqn:Ev.
    + unfold getitem in Hbody.
      destruct (costs !! key t s); [|discriminate].
      destruct (speed_log !! key t s); [|discriminate].
      cbn in Hbody. injection Hbody as <-.
      intros r Hin'. apply in_app_or in Hin' as [Hin'|[<-|[]]];
        [now apply HP0|].
      exists t, s. cbn. auto.
    + injection Hbody as <-. exact HP0.
  - intros r [].
Qed.

Lemma filter_length_mono {A} (p q : A -> bool) l :
  (forall a, In a l -> p a = true -> q a = true) ->
  (length (List.filter p l) <= length (List.filter q l))%nat.
Proof.
  induction l as [|a l IH]; intros Hpq; [reflexivity|].
  assert (IH' := IH (fun a' Ha' => Hpq a' (or_intror Ha'))).
  simpl. destruct (p a) eqn:Ep.
  - rewrite (Hpq a (or_introl eq_refl) Ep). simpl. lia.
  - destruct (q a); simpl; lia.
Qed.

Lemma filter_length_pos {A} (p : A -> bool) l a :
  In a l -> p a = true -> (1 <= length (List.filter p l))%nat.
Proof.
  intros Ha Hp. assert (Hin : In a (List.filter p l)) by now apply filter_In.
  destruct (List.filter p l); [destruct Hin | simpl; lia].
Qed.

Section AnySolver.
Context `{Solver}.

(** X24. Whatever the input, a printed table names only shovels whose id is
    unique in the list: two shovels with the same id share one decision
    variable, which the one-shovel-per-truck constraint then counts twice,
    so no truck is ever sent to either. *)
Theorem opt_fleet_dispatch_shared_id_unused :
  forall trucks shovels,
    match opt_fleet_dispatch trucks shovels with
    | Return (PrintedOptimal _ table) =>
        forall r, In r table ->
          length (List.filter
                    (fun s => String.eqb (shovel_id s) (row_destination r))
                    shovels) = 1%nat
    | _ => True
    end.
Proof.
  intros trucks shovels. unfold opt_fleet_dispatch.
  destruct (cost_matrix trucks shovels) as [[costs speed_log]|e];
    [|exact I]. cbn [bind].
  unfold build_problem.
  destruct (objective_function trucks shovels costs) as [obj|e];
    [|exact I]. cbn [bind].
  set (prob := {| objective := obj;
                  constraints := map (constraint_A shovels) trucks
                                 ++ map (constraint_B trucks) shovels |}).
  unfold prob_solve.
  destruct (names_collide (routes trucks shovels)); [exact I|]. cbn [bind].
  destruct (solve prob) as [status v] eqn:Hsolve.
  destruct (LpStatus_eqb status LpStatusOptimal) eqn:E; [|exact I].
  apply LpStatus_eqb_eq in E. subst status.
  destruct (format_float _) as [total_fuel|e]; [|exact I]. cbn [bind].
  destruct (print_table trucks shovels v costs speed_log) as [table|e] eqn:Hp;
    [|exact I]. cbn [bind].
  destruct (solve_sound _ _ Hsolve) as [Hv _].
  assert (HA : forall t, In t trucks ->
            length (selected v shovels t) = 1%nat).
  { change (feasible v (the_problem trucks shovels)) in Hv.
    apply feasible_the_problem in Hv. exact (proj1 Hv). }
  intros r Hr.
  destruct (print_table_rows _ _ _ _ _ _ Hp r Hr)
    as (t & s & Ht & Hs & Hvk & _ & Hdest).
  rewrite Hdest. apply Nat.le_antisymm.
  - rewrite <- (HA t Ht). unfold selected. apply filter_length_mono.
    intros s' _ Hid. apply String.eqb_eq in Hid.
    unfold key. rewrite Hid. exact Hvk.
  - apply (filter_length_pos _ shovels s Hs). apply String.eqb_refl.
Qed.

End AnySolver.

End SharedIds.
